(** * Triton RC submarine controller: control and safety core

    A shallow embedding of the control and safety core of the controller
    (PID step, vehicle state machine, ballast state machine, event log and
    Core 0 safety monitor) together with the properties stated about them.

    Conventions used throughout:
    - a C integer of width w is a [Z]; every place where the C code can
      wrap or truncate is written out with the helpers of [MachInt];
    - a C [float] is an IEEE 754 binary32 value, [spec_float] with
      precision 24 and maximal exponent 128, every operation rounding to
      nearest-even as the Standard Library's [SpecFloat] specifies it;
    - a C enum is an inductive type, a struct is a record, a pointer
      argument that the function mutates becomes an argument and a result;
      such a pointer is always valid here, so the [!= NULL] assertions and
      guards of the sources have no counterpart;
    - [P10_ASSERT] is kept: a failed assertion in a debug build enters
      [p10_assert_fail], which never returns, so the embedding of a function
      that can fail an assertion returns [option], [None] standing for
      "control does not come back to the caller". *)

From Stdlib Require Import ZArith List Bool Lia.
From Stdlib Require Import Floats.SpecFloat.
Import ListNotations.
Local Open Scope Z_scope.

(* ================================================================== *)
(** * Part I: the model                                                *)
(* ================================================================== *)

(** ** Machine integers *)

Module MachInt.

(** Conversion to an unsigned type of [w] bits: reduction modulo 2^w. *)
Definition to_unsigned (w : Z) (x : Z) : Z := x mod 2 ^ w.

(** Conversion to a signed type of [w] bits (two's complement, as GCC
    defines the out-of-range case). *)
Definition to_signed (w : Z) (x : Z) : Z :=
  let r := x mod 2 ^ w in
  if r <? 2 ^ (w - 1) then r else r - 2 ^ w.

Definition u8 := to_unsigned 8.
Definition u16 := to_unsigned 16.
Definition u32 := to_unsigned 32.
Definition i8 := to_signed 8.
Definition i16 := to_signed 16.
Definition i32 := to_signed 32.

Definition in_u8 (x : Z) : Prop := 0 <= x < 256.
Definition in_u32 (x : Z) : Prop := 0 <= x < 2 ^ 32.
Definition in_i8 (x : Z) : Prop := -128 <= x <= 127.
Definition in_i16 (x : Z) : Prop := -32768 <= x <= 32767.
Definition in_i32 (x : Z) : Prop := - 2 ^ 31 <= x < 2 ^ 31.

(** The [ABS] macro of types.h, as the type reference of the repository
    gives it: [((x) < 0 ? -(x) : (x))]. *)
Definition ABS (x : Z) : Z := if x <? 0 then - x else x.

End MachInt.

(** ** Power-of-10 assertions *)

Module P10.

(** [P10_ASSERT(cond)] of types.h, as the type reference of the repository
    gives it.  With [NDEBUG] defined the macro expands to nothing; otherwise
    a false condition calls [p10_assert_fail], which triggers the emergency
    blow and halts or resets, never returning. *)
Definition P10_ASSERT (ndebug : bool) (cond : bool) : option unit :=
  if ndebug then Some tt else if cond then Some tt else None.

Definition bind {A B : Type} (c : option A) (k : A -> option B) : option B :=
  match c with
  | Some a => k a
  | None => None
  end.

End P10.

Notation "x <- c ;; k" := (P10.bind c (fun x => k))
  (at level 61, c at next level, right associativity).
Notation "'assert!' n c ;; k" := (P10.bind (P10.P10_ASSERT n c) (fun _ => k))
  (at level 61, n at level 0, c at level 9, right associativity).

(** ** IEEE 754 binary32 *)

Module Float32.

Definition prec : Z := 24.
Definition emax : Z := 128.

Definition float := spec_float.

Definition add : float -> float -> float := SFadd prec emax.
Definition sub : float -> float -> float := SFsub prec emax.
Definition mul : float -> float -> float := SFmul prec emax.
Definition div : float -> float -> float := SFdiv prec emax.
Definition neg : float -> float := SFopp.
Definition fabs : float -> float := SFabs.

(** C comparisons; each is false as soon as one operand is a NaN. *)
Definition lt (x y : float) : bool := SFltb x y.
Definition le (x y : float) : bool := SFleb x y.
Definition gt (x y : float) : bool := SFltb y x.
Definition ge (x y : float) : bool := SFleb y x.

(** The literal [0.0f] and the literals written as integers ([1000.0f]). *)
Definition zero : float := S754_zero false.
Definition of_Z (z : Z) : float := binary_normalize prec emax z 0 false.

Definition is_nan (x : float) : bool :=
  match x with S754_nan => true | _ => false end.

(** Zero or a finite non-zero number: neither an infinity nor a NaN. *)
Definition is_finite (x : float) : bool :=
  match x with S754_zero _ | S754_finite _ _ _ => true | _ => false end.

End Float32.

Declare Scope f32_scope.
Delimit Scope f32_scope with f32.
Infix "+" := Float32.add : f32_scope.
Infix "-" := Float32.sub : f32_scope.
Infix "*" := Float32.mul : f32_scope.
Infix "/" := Float32.div : f32_scope.
Notation "- x" := (Float32.neg x) : f32_scope.
Infix "<?" := Float32.lt : f32_scope.
Infix "<=?" := Float32.le : f32_scope.
Infix ">?" := Float32.gt : f32_scope.
Infix ">=?" := Float32.ge : f32_scope.

(** ** pid.c: generic PID controller *)

Module Pid.
Import Float32.

(** [PidController_t] of pid.h. *)
Record PidController_t : Type := mkPid {
  kp : float;
  ki : float;
  kd : float;
  integral : float;
  prev_error : float;
  prev_measurement : float;
  integral_limit : float;
  output_min : float;
  output_max : float;
  use_derivative_on_measurement : bool
}.

(** [pid_init]: every field of the controller is overwritten. *)
Definition pid_init (kp ki kd : float) : PidController_t :=
  {| kp := kp; ki := ki; kd := kd;
     integral := zero; prev_error := zero; prev_measurement := zero;
     integral_limit := of_Z 1000;
     output_min := of_Z (-100);
     output_max := of_Z 100;
     use_derivative_on_measurement := true |}.

(** [pid_set_limits]: asserts [out_min < out_max], and leaves the controller
    untouched when [out_min >= out_max]. *)
Definition pid_set_limits (ndebug : bool) (pid : PidController_t)
  (out_min out_max int_limit : float) : option PidController_t :=
  assert! ndebug (out_min <? out_max)%f32 ;;
  if (out_min >=? out_max)%f32 then Some pid
  else Some {| kp := kp pid; ki := ki pid; kd := kd pid;
               integral := integral pid;
               prev_error := prev_error pid;
               prev_measurement := prev_measurement pid;
               integral_limit := int_limit;
               output_min := out_min;
               output_max := out_max;
               use_derivative_on_measurement :=
                 use_derivative_on_measurement pid |}.

(** The anti-windup clamp of [pid_update] (lines 63-67). *)
Definition clamp_integral (limit x : float) : float :=
  if (x >? limit)%f32 then limit
  else if (x <? - limit)%f32 then (- limit)%f32
  else x.

(** The output clamp of [pid_update] (lines 83-87). *)
Definition clamp_output (lo hi x : float) : float :=
  if (x >? hi)%f32 then hi
  else if (x <? lo)%f32 then lo
  else x.

(** [pid_update]: returns the updated controller and the output. *)
Definition pid_update (ndebug : bool) (pid : PidController_t)
  (setpoint measurement dt : float) : option (PidController_t * float) :=
  assert! ndebug (dt >? zero)%f32 ;;
  if (dt <=? zero)%f32 then Some (pid, zero)
  else
    let error := (setpoint - measurement)%f32 in
    let p_term := (kp pid * error)%f32 in
    let integral' :=
      clamp_integral (integral_limit pid) (integral pid + error * dt)%f32 in
    let i_term := (ki pid * integral')%f32 in
    let d_term :=
      if use_derivative_on_measurement pid then
        let d_meas := ((measurement - prev_measurement pid) / dt)%f32 in
        (- kd pid * d_meas)%f32
      else
        let d_err := ((error - prev_error pid) / dt)%f32 in
        (kd pid * d_err)%f32 in
    let output := (p_term + i_term + d_term)%f32 in
    Some ({| kp := kp pid; ki := ki pid; kd := kd pid;
             integral := integral';
             prev_error := error;
             prev_measurement := measurement;
             integral_limit := integral_limit pid;
             output_min := output_min pid;
             output_max := output_max pid;
             use_derivative_on_measurement :=
               use_derivative_on_measurement pid |},
          clamp_output (output_min pid) (output_max pid) output).

(** [pid_reset]: zeroes the integral and both previous-value trackers. *)
Definition pid_reset (pid : PidController_t) : PidController_t :=
  {| kp := kp pid; ki := ki pid; kd := kd pid;
     integral := zero; prev_error := zero; prev_measurement := zero;
     integral_limit := integral_limit pid;
     output_min := output_min pid;
     output_max := output_max pid;
     use_derivative_on_measurement := use_derivative_on_measurement pid |}.

(** The value the specification gives for the first step after a reset:
    [kp*e + ki*e*dt] clamped to the output range. *)
Definition first_step_as_specified (pid : PidController_t)
  (setpoint measurement dt : float) : float :=
  let e := (setpoint - measurement)%f32 in
  clamp_output (output_min pid) (output_max pid)
    (kp pid * e + ki pid * (e * dt))%f32.

(** The first step after a reset as the code computes it, written from the
    gains, limits and inputs alone: the integral is [e*dt] accumulated onto
    zero and clamped to the integral limit, and the derivative term is
    taken against zeroed previous values. *)
Definition first_step (pid : PidController_t)
  (setpoint measurement dt : float) : float :=
  let e := (setpoint - measurement)%f32 in
  let i := clamp_integral (integral_limit pid) (zero + e * dt)%f32 in
  let d := if use_derivative_on_measurement pid
           then (- kd pid * (measurement / dt))%f32
           else (kd pid * (e / dt))%f32 in
  clamp_output (output_min pid) (output_max pid)
    (kp pid * e + ki pid * i + d)%f32.

(** Two controllers configured alike: same gains, limits and derivative
    mode; their integral and previous-value trackers may differ. *)
Definition same_configuration (a b : PidController_t) : Prop :=
  kp a = kp b /\ ki a = ki b /\ kd a = kd b /\
  integral_limit a = integral_limit b /\
  output_min a = output_min b /\ output_max a = output_max b /\
  use_derivative_on_measurement a = use_derivative_on_measurement b.

(** [n] successive updates with the same setpoint, measurement and [dt]. *)
Fixpoint pid_updates (ndebug : bool) (pid : PidController_t)
  (setpoint measurement dt : float) (n : nat) : option PidController_t :=
  match n with
  | O => Some pid
  | S n =>
      r <- pid_update ndebug pid setpoint measurement dt ;;
      pid_updates ndebug (fst r) setpoint measurement dt n
  end.

(** Controllers for examples: derivative gain 1 alone with the default
    limits, and integral gain 1 alone with the integral limit set to 5 (the
    configuration of the anti-windup unit test). *)
Definition derivative_only : PidController_t :=
  pid_init zero zero (of_Z 1).

Definition integral_only : PidController_t :=
  {| kp := zero; ki := of_Z 1; kd := zero;
     integral := zero; prev_error := zero; prev_measurement := zero;
     integral_limit := of_Z 5;
     output_min := of_Z (-100);
     output_max := of_Z 100;
     use_derivative_on_measurement := true |}.

End Pid.

(** ** state_machine.c: vehicle state machine *)

Module StateMachine.

Definition SURFACE_DEPTH_CM : Z := 10.
Definition DIVE_COMPLETE_CM : Z := 50.
(** [MAX_DEPTH_CM] of config.h. *)
Definition MAX_DEPTH_CM : Z := 300.

(** [MainState_t] of state_machine.h.  The [default:] arm of the switch in
    [state_machine_process] handles values outside the enumeration, which
    this type does not contain. *)
Inductive MainState_t : Type :=
| STATE_INIT
| STATE_SURFACE
| STATE_DIVING
| STATE_SUBMERGED_MANUAL
| STATE_SUBMERGED_DEPTH_HOLD
| STATE_SURFACING
| STATE_EMERGENCY.

Inductive Command_t : Type :=
| CMD_NONE
| CMD_DIVE
| CMD_SURFACE
| CMD_DEPTH_HOLD
| CMD_MANUAL
| CMD_EMERGENCY.

Definition Command_t_eq_dec (a b : Command_t) : {a = b} + {a <> b}.
Proof. decide equality. Defined.

Definition MainState_t_eq_dec (a b : MainState_t) : {a = b} + {a <> b}.
Proof. decide equality. Defined.

(** The C comparison [cmd == c]. *)
Definition cmd_is (cmd c : Command_t) : bool :=
  if Command_t_eq_dec cmd c then true else false.

Definition state_is (s c : MainState_t) : bool :=
  if MainState_t_eq_dec s c then true else false.

(** [StateMachine_t]: [target_depth_cm] is an [int32_t], [state_start_ms] a
    [uint32_t], [ballast_target_level] an [int8_t]. *)
Record StateMachine_t : Type := mkSM {
  state : MainState_t;
  target_depth_cm : Z;
  state_start_ms : Z;
  ballast_target_level : Z;
  depth_hold_enabled : bool
}.

Definition set_state (sm : StateMachine_t) (s : MainState_t) :=
  mkSM s (target_depth_cm sm) (state_start_ms sm)
       (ballast_target_level sm) (depth_hold_enabled sm).

Definition set_state_start_ms (sm : StateMachine_t) (ms : Z) :=
  mkSM (state sm) (target_depth_cm sm) ms
       (ballast_target_level sm) (depth_hold_enabled sm).

Definition set_target_depth_cm (sm : StateMachine_t) (d : Z) :=
  mkSM (state sm) d (state_start_ms sm)
       (ballast_target_level sm) (depth_hold_enabled sm).

Definition state_machine_set_outputs (sm : StateMachine_t)
  (ballast_level : Z) (depth_hold : bool) : StateMachine_t :=
  mkSM (state sm) (target_depth_cm sm) (state_start_ms sm)
       ballast_level depth_hold.

Definition state_machine_handle_init (sm : StateMachine_t) (now_ms : Z) :=
  let sm := set_state sm STATE_SURFACE in
  let sm := set_state_start_ms sm now_ms in
  state_machine_set_outputs sm (-100) false.

Definition state_machine_handle_surface (sm : StateMachine_t)
  (cmd : Command_t) (now_ms : Z) :=
  let sm := state_machine_set_outputs sm (-100) false in
  if cmd_is cmd CMD_DIVE && (target_depth_cm sm >? 0) then
    let sm := set_state sm STATE_DIVING in
    let sm := set_state_start_ms sm now_ms in
    state_machine_set_outputs sm 50 false
  else sm.

Definition state_machine_handle_diving (sm : StateMachine_t)
  (cmd : Command_t) (depth_cm now_ms : Z) :=
  let sm := state_machine_set_outputs sm 50 false in
  if cmd_is cmd CMD_SURFACE then
    let sm := set_state sm STATE_SURFACING in
    let sm := set_state_start_ms sm now_ms in
    state_machine_set_outputs sm (-100) false
  else if depth_cm >=? DIVE_COMPLETE_CM then
    let sm := set_state sm STATE_SUBMERGED_MANUAL in
    let sm := set_state_start_ms sm now_ms in
    state_machine_set_outputs sm 0 false
  else sm.

(** [state_machine_set_target_depth]: two assertions on the range of
    [depth_cm], then a guard that returns without storing when the depth is
    outside [0, MAX_DEPTH_CM]. *)
Definition state_machine_set_target_depth (ndebug : bool)
  (sm : StateMachine_t) (depth_cm : Z) : option StateMachine_t :=
  assert! ndebug (depth_cm >=? 0) ;;
  assert! ndebug (depth_cm <=? MAX_DEPTH_CM) ;;
  if (depth_cm <? 0) || (depth_cm >? MAX_DEPTH_CM) then Some sm
  else Some (set_target_depth_cm sm depth_cm).

Definition state_machine_handle_submerged_manual (ndebug : bool)
  (sm : StateMachine_t) (cmd : Command_t) (depth_cm now_ms : Z)
  : option StateMachine_t :=
  let sm := state_machine_set_outputs sm 0 false in
  if cmd_is cmd CMD_SURFACE then
    let sm := set_state sm STATE_SURFACING in
    let sm := set_state_start_ms sm now_ms in
    Some (state_machine_set_outputs sm (-100) false)
  else if cmd_is cmd CMD_DEPTH_HOLD then
    let sm := set_state sm STATE_SUBMERGED_DEPTH_HOLD in
    sm <- state_machine_set_target_depth ndebug sm depth_cm ;;
    Some (state_machine_set_outputs sm 0 true)
  else Some sm.

Definition state_machine_handle_submerged_depth_hold (sm : StateMachine_t)
  (cmd : Command_t) (depth_cm now_ms : Z) :=
  let sm := state_machine_set_outputs sm 0 true in
  if cmd_is cmd CMD_SURFACE then
    let sm := set_state sm STATE_SURFACING in
    let sm := set_state_start_ms sm now_ms in
    state_machine_set_outputs sm (-100) false
  else if cmd_is cmd CMD_MANUAL then
    let sm := set_state sm STATE_SUBMERGED_MANUAL in
    let sm := set_state_start_ms sm now_ms in
    state_machine_set_outputs sm 0 false
  else sm.

Definition state_machine_handle_surfacing (sm : StateMachine_t)
  (depth_cm now_ms : Z) :=
  let sm := state_machine_set_outputs sm (-100) false in
  if depth_cm <=? SURFACE_DEPTH_CM then
    let sm := set_state sm STATE_SURFACE in
    set_state_start_ms sm now_ms
  else sm.

(** [state_machine_init]: every field is overwritten. *)
Definition state_machine_init : StateMachine_t :=
  state_machine_set_outputs (mkSM STATE_INIT 0 0 0 false) (-100) false.

Definition state_machine_trigger_emergency (sm : StateMachine_t) :=
  let sm := set_state sm STATE_EMERGENCY in
  state_machine_set_outputs sm (-100) false.

Definition state_machine_process (ndebug : bool) (sm : StateMachine_t)
  (cmd : Command_t) (depth_cm now_ms : Z) : option StateMachine_t :=
  if cmd_is cmd CMD_EMERGENCY then Some (state_machine_trigger_emergency sm)
  else if state_is (state sm) STATE_EMERGENCY then Some sm
  else
    match state sm with
    | STATE_INIT => Some (state_machine_handle_init sm now_ms)
    | STATE_SURFACE => Some (state_machine_handle_surface sm cmd now_ms)
    | STATE_DIVING =>
        Some (state_machine_handle_diving sm cmd depth_cm now_ms)
    | STATE_SUBMERGED_MANUAL =>
        state_machine_handle_submerged_manual ndebug sm cmd depth_cm now_ms
    | STATE_SUBMERGED_DEPTH_HOLD =>
        Some (state_machine_handle_submerged_depth_hold sm cmd depth_cm now_ms)
    | STATE_SURFACING =>
        Some (state_machine_handle_surfacing sm depth_cm now_ms)
    | STATE_EMERGENCY => Some sm
    end.

Definition state_machine_get_state (sm : StateMachine_t) := state sm.
Definition state_machine_get_ballast_target (sm : StateMachine_t) :=
  ballast_target_level sm.
Definition state_machine_get_depth_hold_enabled (sm : StateMachine_t) :=
  depth_hold_enabled sm.

(** One call of the public interface on an initialised state machine. *)
Inductive call : Type :=
| Call_set_target_depth (depth_cm : Z)
| Call_trigger_emergency
| Call_process (cmd : Command_t) (depth_cm now_ms : Z).

Definition do_call (ndebug : bool) (sm : StateMachine_t) (c : call)
  : option StateMachine_t :=
  match c with
  | Call_set_target_depth d => state_machine_set_target_depth ndebug sm d
  | Call_trigger_emergency => Some (state_machine_trigger_emergency sm)
  | Call_process cmd d now => state_machine_process ndebug sm cmd d now
  end.

(** A sequence of calls, stopping where an assertion fails. *)
Fixpoint do_calls (ndebug : bool) (sm : StateMachine_t) (cs : list call)
  : option StateMachine_t :=
  match cs with
  | [] => Some sm
  | c :: cs => sm' <- do_call ndebug sm c ;; do_calls ndebug sm' cs
  end.

(** The state machines a program can hold: [state_machine_init] followed by
    calls of the interface. *)
Definition reachable (ndebug : bool) (sm : StateMachine_t) : Prop :=
  exists cs, do_calls ndebug state_machine_init cs = Some sm.

(** Successive [state_machine_process] calls, one per (command, measured
    depth, time) triple. *)
Fixpoint state_machine_process_all (ndebug : bool) (sm : StateMachine_t)
  (inputs : list (Command_t * Z * Z)) : option StateMachine_t :=
  match inputs with
  | [] => Some sm
  | (cmd, depth_cm, now_ms) :: inputs =>
      sm' <- state_machine_process ndebug sm cmd depth_cm now_ms ;;
      state_machine_process_all ndebug sm' inputs
  end.

(** The scenario of the specification: at the surface with target depth
    150, a dive command at t=0, measured depth 60 at t=10. *)
Definition dive_scenario : list call :=
  [ Call_process CMD_NONE 0 0;
    Call_set_target_depth 150;
    Call_process CMD_DIVE 0 0;
    Call_process CMD_NONE 60 10 ].

(** In the emergency state the outputs are the safe ones. *)
Definition emergency_safe (sm : StateMachine_t) : Prop :=
  state sm = STATE_EMERGENCY ->
  ballast_target_level sm = -100 /\ depth_hold_enabled sm = false.

End StateMachine.

(** ** ballast_ctrl.c: ballast state machine *)

Module Ballast.
Import MachInt.

Definition BALLAST_FILL_TIME_MS : Z := 10000.
Definition BALLAST_LEVEL_TOLERANCE : Z := 5.
Definition BALLAST_FULL_RANGE_UNITS : Z := 200.
Definition BALLAST_SCALE_X1000 : Z := 1000.
Definition INT32_MAX : Z := 2 ^ 31 - 1.

(** [BallastState_t] of ballast_ctrl.h; the [default:] arm of the switch in
    [ballast_ctrl_update] handles values outside the enumeration. *)
Inductive BallastState_t : Type :=
| BALLAST_STATE_IDLE
| BALLAST_STATE_FILLING
| BALLAST_STATE_DRAINING
| BALLAST_STATE_HOLDING.

(** [BallastController_t]: the two levels are [int8_t], the fixed-point
    estimate an [int32_t], the two times [uint32_t]. *)
Record BallastController_t : Type := mkBallast {
  state : BallastState_t;
  target_level : Z;
  current_level : Z;
  current_level_x1000 : Z;
  last_update_ms : Z;
  fill_time_ms : Z
}.

Definition set_state (c : BallastController_t) (s : BallastState_t) :=
  mkBallast s (target_level c) (current_level c) (current_level_x1000 c)
            (last_update_ms c) (fill_time_ms c).

Definition set_target_level (c : BallastController_t) (v : Z) :=
  mkBallast (state c) v (current_level c) (current_level_x1000 c)
            (last_update_ms c) (fill_time_ms c).

Definition set_current_level (c : BallastController_t) (v : Z) :=
  mkBallast (state c) (target_level c) v (current_level_x1000 c)
            (last_update_ms c) (fill_time_ms c).

Definition set_current_level_x1000 (c : BallastController_t) (v : Z) :=
  mkBallast (state c) (target_level c) (current_level c) v
            (last_update_ms c) (fill_time_ms c).

Definition set_last_update_ms (c : BallastController_t) (v : Z) :=
  mkBallast (state c) (target_level c) (current_level c)
            (current_level_x1000 c) v (fill_time_ms c).

(** [clamp_i8(v, lo, hi)], [v] an [int16_t]. *)
Definition clamp_i8 (ndebug : bool) (v lo hi : Z) : option Z :=
  assert! ndebug (lo <? hi) ;;
  if v <? lo then Some lo
  else if v >? hi then Some hi
  else Some (i8 v).

(** [ballast_ctrl_default_outputs]: pump speed 0, valve closed. *)
Definition ballast_ctrl_default_outputs : Z * bool := (0, false).

Definition clamp_dt_ms (ndebug : bool) (dt_ms max_dt_ms : Z) : option Z :=
  assert! ndebug (max_dt_ms >? 0) ;;
  if dt_ms >? max_dt_ms then Some max_dt_ms else Some dt_ms.

(** [ballast_delta_x1000]: the product and the quotient are computed in
    [uint64_t]. *)
Definition ballast_delta_x1000 (ndebug : bool) (dt_ms fill_time_ms : Z)
  : option Z :=
  assert! ndebug (fill_time_ms >? 0) ;;
  if fill_time_ms =? 0 then Some 0
  else
    dt_clamped <- clamp_dt_ms ndebug dt_ms fill_time_ms ;;
    let num :=
      to_unsigned 64
        (dt_clamped * (BALLAST_FULL_RANGE_UNITS * BALLAST_SCALE_X1000)) in
    let delta_u := num / fill_time_ms in
    if delta_u >? INT32_MAX then Some INT32_MAX else Some delta_u.

(** [ballast_update_level]: one step of the level integration.  The sum on
    the [int32_t] estimate is written with its wrap-around. *)
Definition ballast_update_level (ndebug : bool) (ctrl : BallastController_t)
  (direction now_ms : Z) : option BallastController_t :=
  assert! ndebug ((direction =? -1) || (direction =? 1)) ;;
  if last_update_ms ctrl =? 0 then Some (set_last_update_ms ctrl now_ms)
  else
    let dt_ms := u32 (now_ms - last_update_ms ctrl) in
    let ctrl := set_last_update_ms ctrl now_ms in
    delta <- ballast_delta_x1000 ndebug dt_ms (fill_time_ms ctrl) ;;
    let ctrl :=
      set_current_level_x1000 ctrl
        (i32 (current_level_x1000 ctrl + direction * delta)) in
    let min_x1000 := -100 * BALLAST_SCALE_X1000 in
    let max_x1000 := 100 * BALLAST_SCALE_X1000 in
    let ctrl :=
      if current_level_x1000 ctrl <? min_x1000 then
        set_current_level_x1000 ctrl min_x1000
      else if current_level_x1000 ctrl >? max_x1000 then
        set_current_level_x1000 ctrl max_x1000
      else ctrl in
    lvl <- clamp_i8 ndebug
             (i16 (Z.quot (current_level_x1000 ctrl) BALLAST_SCALE_X1000))
             (-100) 100 ;;
    Some (set_current_level ctrl lvl).

(** [ballast_ctrl_init]: every field is overwritten. *)
Definition ballast_ctrl_init : BallastController_t :=
  mkBallast BALLAST_STATE_IDLE 0 0 0 0 BALLAST_FILL_TIME_MS.

Definition ballast_ctrl_set_target (ndebug : bool)
  (ctrl : BallastController_t) (level : Z) : option BallastController_t :=
  clamped <- clamp_i8 ndebug (i16 level) (-100) 100 ;;
  Some (set_target_level ctrl clamped).

(** [ballast_ctrl_update]: returns the controller, the pump speed and the
    valve command. *)
Definition ballast_ctrl_update (ndebug : bool) (ctrl : BallastController_t)
  (now_ms : Z) : option (BallastController_t * Z * bool) :=
  let '(pump0, valve0) := ballast_ctrl_default_outputs in
  let error := i16 (target_level ctrl - current_level ctrl) in
  let abs_error := i16 (ABS error) in
  match state ctrl with
  | BALLAST_STATE_IDLE =>
      if abs_error >? BALLAST_LEVEL_TOLERANCE then
        if error >? 0 then
          let ctrl := set_state ctrl BALLAST_STATE_FILLING in
          let ctrl := set_last_update_ms ctrl 0 in
          Some (ctrl, 100, false)
        else
          let ctrl := set_state ctrl BALLAST_STATE_DRAINING in
          let ctrl := set_last_update_ms ctrl 0 in
          Some (ctrl, -100, true)
      else Some (ctrl, pump0, valve0)
  | BALLAST_STATE_FILLING =>
      ctrl <- ballast_update_level ndebug ctrl 1 now_ms ;;
      if current_level ctrl >=? target_level ctrl then
        let ctrl := set_current_level ctrl (target_level ctrl) in
        let ctrl :=
          set_current_level_x1000 ctrl
            (target_level ctrl * BALLAST_SCALE_X1000) in
        let ctrl := set_state ctrl BALLAST_STATE_HOLDING in
        Some (ctrl, 100, false)
      else Some (ctrl, 100, false)
  | BALLAST_STATE_DRAINING =>
      ctrl <- ballast_update_level ndebug ctrl (-1) now_ms ;;
      if current_level ctrl <=? target_level ctrl then
        let ctrl := set_current_level ctrl (target_level ctrl) in
        let ctrl :=
          set_current_level_x1000 ctrl
            (target_level ctrl * BALLAST_SCALE_X1000) in
        let ctrl := set_state ctrl BALLAST_STATE_HOLDING in
        Some (ctrl, -100, true)
      else Some (ctrl, -100, true)
  | BALLAST_STATE_HOLDING =>
      if abs_error >? BALLAST_LEVEL_TOLERANCE * 2 then
        Some (set_state ctrl BALLAST_STATE_IDLE, pump0, valve0)
      else Some (ctrl, pump0, valve0)
  end.

Definition ballast_ctrl_get_state (ctrl : BallastController_t) := state ctrl.

(** The level error, target minus current estimate. *)
Definition level_error (ctrl : BallastController_t) : Z :=
  target_level ctrl - current_level ctrl.
Definition ballast_ctrl_get_target (ctrl : BallastController_t) :=
  target_level ctrl.
Definition ballast_ctrl_get_current (ctrl : BallastController_t) :=
  current_level ctrl.

(** One call of the mutating interface on an initialised controller; the
    arguments are an [int8_t] level and a [uint32_t] time. *)
Inductive call : Type :=
| Call_set_target (level : Z)
| Call_update (now_ms : Z).

Definition call_ok (c : call) : Prop :=
  match c with
  | Call_set_target level => in_i8 level
  | Call_update now_ms => in_u32 now_ms
  end.

Definition do_call (ndebug : bool) (ctrl : BallastController_t) (c : call)
  : option BallastController_t :=
  match c with
  | Call_set_target level => ballast_ctrl_set_target ndebug ctrl level
  | Call_update now_ms =>
      r <- ballast_ctrl_update ndebug ctrl now_ms ;; Some (fst (fst r))
  end.

Fixpoint do_calls (ndebug : bool) (ctrl : BallastController_t)
  (cs : list call) : option BallastController_t :=
  match cs with
  | [] => Some ctrl
  | c :: cs => ctrl' <- do_call ndebug ctrl c ;; do_calls ndebug ctrl' cs
  end.

(** The controllers a program can hold: [ballast_ctrl_init] followed by
    calls of the interface with arguments of the declared C types. *)
Definition reachable (ndebug : bool) (ctrl : BallastController_t) : Prop :=
  exists cs, Forall call_ok cs /\
             do_calls ndebug ballast_ctrl_init cs = Some ctrl.

(** What [ballast_ctrl_init], [ballast_ctrl_set_target] and
    [ballast_ctrl_update] maintain. *)
Record inv (ctrl : BallastController_t) : Prop := mkInv {
  inv_target : -100 <= target_level ctrl <= 100;
  inv_current : -100 <= current_level ctrl <= 100;
  inv_x1000 : -100000 <= current_level_x1000 ctrl <= 100000;
  inv_last : in_u32 (last_update_ms ctrl);
  inv_fill : fill_time_ms ctrl = BALLAST_FILL_TIME_MS
}.

End Ballast.

(** ** types.h: event codes *)

Module Types.

(** Modelled from the spec: types.h is not among the sources, so the event
    codes are collected from their uses.  The enumerators are those named in
    log.c, main.c, emergency.c and safety_monitor.c, listed in the order of
    the type reference of the repository, with [EVT_CORE1_STALL] (used by
    safety_monitor.c) added last.  Only the identity of a code matters
    below, never its numeric value. *)
Inductive EventCode_t : Type :=
| EVT_NONE
| EVT_BOOT
| EVT_INIT_COMPLETE
| EVT_STATE_CHANGE
| EVT_MODE_CHANGE
| EVT_SIGNAL_LOST
| EVT_SIGNAL_RESTORED
| EVT_LOW_BATTERY
| EVT_LEAK_DETECTED
| EVT_DEPTH_EXCEEDED
| EVT_PITCH_EXCEEDED
| EVT_EMERGENCY_BLOW
| EVT_WATCHDOG_RESET
| EVT_ASSERT_FAIL
| EVT_I2C_ERROR
| EVT_SENSOR_FAULT
| EVT_CORE1_STALL.

Definition EventCode_t_eq_dec (a b : EventCode_t) : {a = b} + {a <> b}.
Proof. decide equality. Defined.

Definition code_is (a b : EventCode_t) : bool :=
  if EventCode_t_eq_dec a b then true else false.

End Types.

(** ** log.c: event log ring buffer *)

Module Log.
Import MachInt Types.

(** [EventLogEntry_t]: [timestamp_ms] is a [uint32_t], the two parameters
    are [uint8_t]. *)
Record EventLogEntry_t : Type := mkEntry {
  timestamp_ms : Z;
  code : EventCode_t;
  param1 : Z;
  param2 : Z
}.

(** [EventLog_t]: the array [entries] as a list, [head] and [count] are
    [uint8_t]. *)
Record EventLog_t : Type := mkLog {
  entries : list EventLogEntry_t;
  head : Z;
  count : Z
}.

(** Array write [a[i] = x]; the list is returned unchanged when [n] is not
    an index of it (callers check the bound first). *)
Fixpoint list_set {A : Type} (l : list A) (n : nat) (x : A) : list A :=
  match l, n with
  | [], _ => []
  | _ :: t, O => x :: t
  | h :: t, S n => h :: list_set t n x
  end.

(** Array accesses with a C index; an index outside the array is undefined
    behaviour and yields [None]. *)
Definition array_get {A : Type} (a : list A) (i : Z) : option A :=
  if (0 <=? i) && (i <? Z.of_nat (length a))
  then nth_error a (Z.to_nat i) else None.

Definition array_set {A : Type} (a : list A) (i : Z) (x : A)
  : option (list A) :=
  if (0 <=? i) && (i <? Z.of_nat (length a))
  then Some (list_set a (Z.to_nat i) x) else None.

Section WithCapacity.

(** The macro [EVENT_LOG_SIZE] of types.h, the capacity of the buffer and
    the length of the array [entries] (32 in the type reference of the
    repository); the build flag [NDEBUG]. *)
Variable EVENT_LOG_SIZE : Z.
Variable ndebug : bool.

Definition next_index (idx : Z) : option Z :=
  assert! ndebug (idx <? EVENT_LOG_SIZE) ;;
  let idx := u8 (idx + 1) in
  if idx >=? EVENT_LOG_SIZE then Some 0 else Some idx.

Definition wrap_sub (a b : Z) : option Z :=
  assert! ndebug (a <? EVENT_LOG_SIZE) ;;
  assert! ndebug (b <? EVENT_LOG_SIZE) ;;
  if a >=? b then Some (u8 (a - b))
  else Some (u8 (EVENT_LOG_SIZE - (b - a))).

(** [log_init]: every entry is cleared, [head] and [count] are zeroed. *)
Definition log_init : EventLog_t :=
  {| entries := repeat (mkEntry 0 EVT_NONE 0 0) (Z.to_nat EVENT_LOG_SIZE);
     head := 0;
     count := 0 |}.

Definition log_event (log : EventLog_t)
  (timestamp_ms : Z) (code : EventCode_t) (param1 param2 : Z)
  : option EventLog_t :=
  entries' <- array_set (entries log) (head log)
                (mkEntry timestamp_ms code param1 param2) ;;
  head' <- next_index (head log) ;;
  let count' :=
    if count log <? EVENT_LOG_SIZE then u8 (count log + 1) else count log in
  Some {| entries := entries'; head := head'; count := count' |}.

(** [log_get_newest]: [Some None] is the result [false], [Some (Some e)]
    the result [true] with [e] stored through [entry_out]. *)
Definition log_get_newest (log : EventLog_t) (index_from_newest : Z)
  : option (option EventLogEntry_t) :=
  if index_from_newest >=? count log then Some None
  else
    newest_idx <- wrap_sub (head log) 1 ;;
    idx <- wrap_sub newest_idx index_from_newest ;;
    e <- array_get (entries log) idx ;;
    Some (Some e).

Definition log_count (log : EventLog_t) : Z := count log.

(** Appending a sequence of entries, oldest first. *)
Fixpoint log_events (log : EventLog_t) (es : list EventLogEntry_t)
  : option EventLog_t :=
  match es with
  | [] => Some log
  | e :: es =>
      log' <- log_event log (timestamp_ms e) (code e) (param1 e) (param2 e) ;;
      log_events log' es
  end.

(** [repr es log]: [log] is what the buffer holds after the entries [es]
    (oldest first) were appended to an initialised log. *)
Record repr (es : list EventLogEntry_t) (log : EventLog_t) : Prop := mkRepr {
  repr_length : length (entries log) = Z.to_nat EVENT_LOG_SIZE;
  repr_head : head log = Z.of_nat (length es) mod EVENT_LOG_SIZE;
  repr_count : count log = Z.min (Z.of_nat (length es)) EVENT_LOG_SIZE;
  repr_entries : forall j : nat,
    Z.of_nat j < Z.min (Z.of_nat (length es)) EVENT_LOG_SIZE ->
    nth_error (entries log)
      (Z.to_nat
         ((Z.of_nat (length es) - 1 - Z.of_nat j) mod EVENT_LOG_SIZE))
    = nth_error (rev es) j
}.

End WithCapacity.

(** [n] entries stamped 0, 1, ..., as the wrap-around unit test appends
    them. *)
Definition stamped (n : nat) : list EventLogEntry_t :=
  map (fun i => mkEntry (Z.of_nat i) EVT_STATE_CHANGE (Z.of_nat i) 0)
      (seq 0 n).

End Log.

(** ** safety_monitor.c and emergency.c: Core 0 safety monitor *)

Module Safety.
Import MachInt Types.

(** Safety limits of config.h. *)
Definition SIGNAL_TIMEOUT_MS : Z := 3000.
Definition MAX_DEPTH_CM : Z := 300.
Definition MAX_PITCH_DEG : Z := 45.
Definition MIN_BATTERY_MV : Z := 6400.
Definition WATCHDOG_TIMEOUT_MS : Z := 1000.
Definition PIN_LED_STATUS : Z := 25.
Definition CORE1_STALL_THRESHOLD : Z := 10.

(** Modelled from the spec: the declaration of [FaultFlags_t] (types.h) is
    not among the sources.  [g_faults.all] is the 16-bit word, and each
    one-bit field is a bit of it: the first five in the order signal_lost,
    low_battery, leak, depth_exceeded, pitch_exceeded (bits 0 to 4, as the
    type reference declares them and as the comment "First 5 bits" on
    [critical_mask] says), and core1_stall at bit 8 (same comment). *)
Definition BIT_signal_lost : Z := 0.
Definition BIT_low_battery : Z := 1.
Definition BIT_leak : Z := 2.
Definition BIT_depth_exceeded : Z := 3.
Definition BIT_pitch_exceeded : Z := 4.
Definition BIT_core1_stall : Z := 8.

(** [critical_mask = 0x011F] of [safety_monitor_run]. *)
Definition critical_mask : Z := 287.

Inductive Servo_t : Type := SERVO_RUDDER | SERVO_BOWPLANE | SERVO_STERNPLANE.

(** What a function does to the world outside the two modules, in the order
    it does it.  [Enter_trigger_emergency_blow] is not a call to the
    outside: it marks each entry into [trigger_emergency_blow], so that
    its invocations can be counted. *)
Inductive effect : Type :=
| Watchdog_enable (delay_ms : Z) (pause_on_debug : bool)
| Watchdog_update
| Gpio_init (pin : Z)
| Gpio_set_dir_out (pin : Z)
| Gpio_put (pin : Z) (value : bool)
| Log_event (code : EventCode_t) (param1 param2 : Z)
| Valve_open
| Pump_set_speed (speed : Z)
| Servo_set_position (servo : Servo_t) (position : Z)
| Enter_trigger_emergency_blow (reason : EventCode_t).

(** The file-scope and function-scope static variables of safety_monitor.c
    and emergency.c, and the effects performed so far (oldest first). *)
Record state : Type := mkState {
  g_faults : Z;
  g_emergency : bool;
  g_last_rc_valid_ms : Z;
  g_current_depth_cm : Z;
  g_current_pitch_x10 : Z;
  s_last_heartbeat : Z;
  s_stall_count : Z;
  last_led_toggle_ms : Z;
  led_state : bool;
  emergency_active : bool;
  emergency_reason : EventCode_t;
  trace : list effect
}.

Definition set_g_faults (st : state) (v : Z) : state :=
  mkState v (g_emergency st) (g_last_rc_valid_ms st) (g_current_depth_cm st)
    (g_current_pitch_x10 st) (s_last_heartbeat st) (s_stall_count st)
    (last_led_toggle_ms st) (led_state st) (emergency_active st)
    (emergency_reason st) (trace st).

Definition set_g_emergency (st : state) (v : bool) : state :=
  mkState (g_faults st) v (g_last_rc_valid_ms st) (g_current_depth_cm st)
    (g_current_pitch_x10 st) (s_last_heartbeat st) (s_stall_count st)
    (last_led_toggle_ms st) (led_state st) (emergency_active st)
    (emergency_reason st) (trace st).

Definition set_g_last_rc_valid_ms (st : state) (v : Z) : state :=
  mkState (g_faults st) (g_emergency st) v (g_current_depth_cm st)
    (g_current_pitch_x10 st) (s_last_heartbeat st) (s_stall_count st)
    (last_led_toggle_ms st) (led_state st) (emergency_active st)
    (emergency_reason st) (trace st).

Definition set_g_current_depth_cm (st : state) (v : Z) : state :=
  mkState (g_faults st) (g_emergency st) (g_last_rc_valid_ms st) v
    (g_current_pitch_x10 st) (s_last_heartbeat st) (s_stall_count st)
    (last_led_toggle_ms st) (led_state st) (emergency_active st)
    (emergency_reason st) (trace st).

Definition set_g_current_pitch_x10 (st : state) (v : Z) : state :=
  mkState (g_faults st) (g_emergency st) (g_last_rc_valid_ms st)
    (g_current_depth_cm st) v (s_last_heartbeat st) (s_stall_count st)
    (last_led_toggle_ms st) (led_state st) (emergency_active st)
    (emergency_reason st) (trace st).

Definition set_s_last_heartbeat (st : state) (v : Z) : state :=
  mkState (g_faults st) (g_emergency st) (g_last_rc_valid_ms st)
    (g_current_depth_cm st) (g_current_pitch_x10 st) v (s_stall_count st)
    (last_led_toggle_ms st) (led_state st) (emergency_active st)
    (emergency_reason st) (trace st).

Definition set_s_stall_count (st : state) (v : Z) : state :=
  mkState (g_faults st) (g_emergency st) (g_last_rc_valid_ms st)
    (g_current_depth_cm st) (g_current_pitch_x10 st) (s_last_heartbeat st) v
    (last_led_toggle_ms st) (led_state st) (emergency_active st)
    (emergency_reason st) (trace st).

Definition set_led (st : state) (toggle_ms : Z) (led : bool) : state :=
  mkState (g_faults st) (g_emergency st) (g_last_rc_valid_ms st)
    (g_current_depth_cm st) (g_current_pitch_x10 st) (s_last_heartbeat st)
    (s_stall_count st) toggle_ms led (emergency_active st)
    (emergency_reason st) (trace st).

Definition set_emergency (st : state) (reason : EventCode_t) : state :=
  mkState (g_faults st) (g_emergency st) (g_last_rc_valid_ms st)
    (g_current_depth_cm st) (g_current_pitch_x10 st) (s_last_heartbeat st)
    (s_stall_count st) (last_led_toggle_ms st) (led_state st) true
    reason (trace st).

(** Performing an effect appends it to the trace. *)
Definition emit (st : state) (e : effect) : state :=
  mkState (g_faults st) (g_emergency st) (g_last_rc_valid_ms st)
    (g_current_depth_cm st) (g_current_pitch_x10 st) (s_last_heartbeat st)
    (s_stall_count st) (last_led_toggle_ms st) (led_state st)
    (emergency_active st) (emergency_reason st) (trace st ++ [e]).

(** Reading, setting and clearing the one-bit field at position [b]. *)
Definition fault (st : state) (b : Z) : bool := Z.testbit (g_faults st) b.
Definition raise_fault (st : state) (b : Z) : state :=
  set_g_faults st (Z.setbit (g_faults st) b).
Definition clear_fault (st : state) (b : Z) : state :=
  set_g_faults st (Z.clearbit (g_faults st) b).

(** The static initialisers: the state when the program is loaded. *)
Definition boot : state :=
  mkState 0 false 0 0 0 0 0 0 false false EVT_NONE [].

(** The assertions of emergency.c and of the monitor's own functions
    compare compile-time constants ([SIGNAL_TIMEOUT_MS > 0],
    [PIN_LED_STATUS < 30], ...) or bound an enumerator by [EVT_COUNT]; they
    hold in every build and are not repeated.  Only the three writers used
    by Core 1 assert on their arguments. *)

(** *** emergency.c *)

Definition trigger_emergency_blow (reason : EventCode_t) (st : state)
  : state :=
  let st := emit st (Enter_trigger_emergency_blow reason) in
  let st := set_emergency st reason in
  let st := emit st Valve_open in
  let st := emit st (Pump_set_speed (-100)) in
  let st := emit st (Servo_set_position SERVO_RUDDER 0) in
  let st := emit st (Servo_set_position SERVO_BOWPLANE 100) in
  let st := emit st (Servo_set_position SERVO_STERNPLANE 100) in
  emit st (Log_event reason 0 0).

Definition emergency_blow_run (st : state) : state :=
  if negb (emergency_active st) then st
  else
    let st := emit st Valve_open in
    let st := emit st (Pump_set_speed (-100)) in
    let st := emit st (Servo_set_position SERVO_BOWPLANE 100) in
    emit st (Servo_set_position SERVO_STERNPLANE 100).

Definition is_emergency_active (st : state) : bool := emergency_active st.

(** *** safety_monitor.c: the interface used by Core 1 *)

Definition safety_update_rc_time (ndebug : bool) (ms : Z) (st : state)
  : option state :=
  assert! ndebug (ms <=? 4294967295) ;;
  Some (set_g_last_rc_valid_ms st ms).

Definition safety_update_depth (ndebug : bool) (depth_cm : Z) (st : state)
  : option state :=
  assert! ndebug (depth_cm >=? 0) ;;
  assert! ndebug (depth_cm <=? 10000) ;;
  Some (set_g_current_depth_cm st depth_cm).

Definition safety_update_pitch (ndebug : bool) (pitch_x10 : Z) (st : state)
  : option state :=
  assert! ndebug (pitch_x10 >=? -1800) ;;
  assert! ndebug (pitch_x10 <=? 1800) ;;
  Some (set_g_current_pitch_x10 st pitch_x10).

(** *** safety_monitor.c: the monitor *)

Definition safety_monitor_init (st : state) : state :=
  let st := emit st (Watchdog_enable WATCHDOG_TIMEOUT_MS true) in
  let st := emit st (Gpio_init PIN_LED_STATUS) in
  let st := emit st (Gpio_set_dir_out PIN_LED_STATUS) in
  let st := set_g_faults st 0 in
  set_g_emergency st false.

Definition check_rc_signal (now_ms : Z) (st : state) : state :=
  if u32 (now_ms - g_last_rc_valid_ms st) >? SIGNAL_TIMEOUT_MS then
    if negb (fault st BIT_signal_lost) then
      let st := raise_fault st BIT_signal_lost in
      emit st (Log_event EVT_SIGNAL_LOST 0 0)
    else st
  else
    if fault st BIT_signal_lost then
      let st := clear_fault st BIT_signal_lost in
      emit st (Log_event EVT_SIGNAL_RESTORED 0 0)
    else st.

(** [batt_mv] is the [uint16_t] that [battery_read_mv()] returns. *)
Definition check_battery (batt_mv : Z) (st : state) : state :=
  if batt_mv <? MIN_BATTERY_MV then
    if negb (fault st BIT_low_battery) then
      let st := raise_fault st BIT_low_battery in
      emit st (Log_event EVT_LOW_BATTERY
                 (u8 (Z.shiftr batt_mv 8)) (u8 (Z.land batt_mv 255)))
    else st
  else st.

(** [leak] is the value that [leak_detected()] returns. *)
Definition check_sensors (leak : bool) (st : state) : state :=
  let st :=
    if leak then
      if negb (fault st BIT_leak) then
        let st := raise_fault st BIT_leak in
        emit st (Log_event EVT_LEAK_DETECTED 0 0)
      else st
    else st in
  let st :=
    if g_current_depth_cm st >? MAX_DEPTH_CM then
      if negb (fault st BIT_depth_exceeded) then
        let st := raise_fault st BIT_depth_exceeded in
        emit st (Log_event EVT_DEPTH_EXCEEDED
                   (u8 (Z.shiftr (g_current_depth_cm st) 8))
                   (u8 (Z.land (g_current_depth_cm st) 255)))
      else st
    else st in
  let pitch_deg := i16 (Z.quot (g_current_pitch_x10 st) 10) in
  if ABS pitch_deg >? MAX_PITCH_DEG then
    if negb (fault st BIT_pitch_exceeded) then
      let st := raise_fault st BIT_pitch_exceeded in
      emit st (Log_event EVT_PITCH_EXCEEDED (u8 pitch_deg) 0)
    else st
  else st.

(** [heartbeat] is the value read from [g_core1_heartbeat], the counter that
    Core 1 increments. *)
Definition check_core1_health (heartbeat : Z) (st : state) : state :=
  let st :=
    if heartbeat =? s_last_heartbeat st then
      let st := set_s_stall_count st (u32 (s_stall_count st + 1)) in
      if s_stall_count st >? CORE1_STALL_THRESHOLD then
        if negb (fault st BIT_core1_stall) then
          let st := raise_fault st BIT_core1_stall in
          let st := emit st (Log_event EVT_CORE1_STALL 0 0) in
          trigger_emergency_blow EVT_CORE1_STALL st
        else st
      else st
    else
      let st := set_s_stall_count st 0 in
      clear_fault st BIT_core1_stall in
  set_s_last_heartbeat st heartbeat.

Definition update_heartbeat_led (now_ms : Z) (st : state) : state :=
  let blink_rate := if g_emergency st then 100 else 500 in
  if u32 (now_ms - last_led_toggle_ms st) >=? blink_rate then
    let led := negb (led_state st) in
    let st := emit st (Gpio_put PIN_LED_STATUS led) in
    set_led st now_ms led
  else st.

(** What one tick reads from outside the module: the clock, the battery
    voltage, the leak sensor and Core 1's heartbeat counter. *)
Record tick_input : Type := mkInput {
  now_ms : Z;
  batt_mv : Z;
  leak : bool;
  core1_heartbeat : Z
}.

(** [safety_monitor_run].  Its opening assertion,
    [g_faults.all < 0x10000], holds of every [uint16_t]. *)
Definition safety_monitor_run (inp : tick_input) (st : state) : state :=
  let st := emit st Watchdog_update in
  let st := check_rc_signal (now_ms inp) st in
  let st := check_battery (batt_mv inp) st in
  let st := check_sensors (leak inp) st in
  let st := check_core1_health (core1_heartbeat inp) st in
  let st :=
    if negb (Z.land (g_faults st) critical_mask =? 0)
       && negb (g_emergency st)
    then
      let st := trigger_emergency_blow EVT_EMERGENCY_BLOW st in
      set_g_emergency st true
    else st in
  update_heartbeat_led (now_ms inp) st.

Definition safety_monitor_get_faults (st : state) : Z := g_faults st.
Definition safety_monitor_is_emergency (st : state) : bool := g_emergency st.

(** *** Runs *)

(** What happens during a run after [safety_monitor_init]: ticks of the
    monitor on Core 0, interleaved with Core 1 publishing its readings and
    with the blow sequence that [core0_main] runs while the emergency is
    active. *)
Inductive event : Type :=
| Tick (inp : tick_input)
| Update_rc_time (ms : Z)
| Update_depth (depth_cm : Z)
| Update_pitch (pitch_x10 : Z)
| Blow_run.

Definition step (ndebug : bool) (st : state) (ev : event) : option state :=
  match ev with
  | Tick inp => Some (safety_monitor_run inp st)
  | Update_rc_time ms => safety_update_rc_time ndebug ms st
  | Update_depth d => safety_update_depth ndebug d st
  | Update_pitch p => safety_update_pitch ndebug p st
  | Blow_run => Some (emergency_blow_run st)
  end.

Fixpoint run (ndebug : bool) (st : state) (evs : list event) : option state :=
  match evs with
  | [] => Some st
  | ev :: evs => st' <- step ndebug st ev ;; run ndebug st' evs
  end.

(** How often an effect satisfying [p] occurs in a trace. *)
Fixpoint count (p : effect -> bool) (t : list effect) : Z :=
  match t with
  | [] => 0
  | e :: t => (if p e then 1 else 0) + count p t
  end.

Definition is_watchdog_update (e : effect) : bool :=
  match e with Watchdog_update => true | _ => false end.

(** Entries into [trigger_emergency_blow], whatever the reason. *)
Definition is_trigger (e : effect) : bool :=
  match e with Enter_trigger_emergency_blow _ => true | _ => false end.

(** Entries into [trigger_emergency_blow] with the given reason. *)
Definition is_trigger_for (reason : EventCode_t) (e : effect) : bool :=
  match e with
  | Enter_trigger_emergency_blow r => code_is r reason
  | _ => false
  end.

(** Whether any critical fault bit is set. *)
Definition critical (st : state) : bool :=
  negb (Z.land (g_faults st) critical_mask =? 0).

(** *** Predicates used to state the properties *)

(** A predicate on effects that ignores the log, the actuators and the
    LED: it can only count watchdog calls, initialisation and entries into
    [trigger_emergency_blow]. *)
Record quiet (p : effect -> bool) : Prop := mkQuiet {
  quiet_log : forall c a b, p (Log_event c a b) = false;
  quiet_valve : p Valve_open = false;
  quiet_pump : forall s, p (Pump_set_speed s) = false;
  quiet_servo : forall s x, p (Servo_set_position s x) = false;
  quiet_gpio : forall pin v, p (Gpio_put pin v) = false
}.

(** [adds p st st' k]: from [st] to [st'] the trace gained [k] effects
    counted by [p], and [g_emergency] did not change. *)
Definition adds (p : effect -> bool) (st st' : state) (k : Z) : Prop :=
  count p (trace st') = count p (trace st) + k /\
  g_emergency st' = g_emergency st.

(** [keeps st st']: every fault bit other than signal_lost and core1_stall
    that is set in [st] is still set in [st']. *)
Definition keeps (st st' : state) : Prop :=
  forall b, 0 <= b -> b <> BIT_signal_lost -> b <> BIT_core1_stall ->
            fault st b = true -> fault st' b = true.

(** [sticky st st']: the summary of a check that can only raise bits, and
    neither signal_lost nor core1_stall. *)
Definition sticky (st st' : state) : Prop :=
  keeps st st' /\
  fault st' BIT_signal_lost = fault st BIT_signal_lost /\
  fault st' BIT_core1_stall = fault st BIT_core1_stall.

(** What holds after every run from [safety_monitor_init]. *)
Record run_inv (st : state) : Prop := mkRunInv {
  inv_aggregate :
    count (is_trigger_for EVT_EMERGENCY_BLOW) (trace st)
    = Z.b2z (g_emergency st);
  inv_calm :
    g_emergency st = false ->
    critical st = false /\ count is_trigger (trace st) = 0
}.

(** Inputs for examples: a healthy battery (7.4 V), no leak, time 0, and
    the given value of Core 1's heartbeat counter. *)
Definition nominal_input (heartbeat : Z) : tick_input :=
  mkInput 0 7400 false heartbeat.

(** The same with the battery at 6.0 V, below [MIN_BATTERY_MV], and a
    heartbeat that differs from the initial one. *)
Definition low_battery_input : tick_input := mkInput 0 6000 false 1.

(** The state after [safety_monitor_init] and two ticks that find the
    battery low. *)
Definition after_two_low_battery_ticks : state :=
  safety_monitor_run low_battery_input
    (safety_monitor_run low_battery_input (safety_monitor_init boot)).

End Safety.

(* ================================================================== *)
(** * Part II: the properties                                          *)
(* ================================================================== *)

(** ** Assertions *)

Lemma P10_ASSERT_true (ndebug : bool) : P10.P10_ASSERT ndebug true = Some tt.
Proof. destruct ndebug; reflexivity. Qed.

(** ** Machine integers *)

Module MachIntFacts.
Import MachInt.

Lemma i8_id (x : Z) : in_i8 x -> i8 x = x.
Proof.
  unfold in_i8, i8, to_signed. intros H.
  change (2 ^ 8) with 256. change (2 ^ (8 - 1)) with 128.
  destruct (Z.ltb_spec (x mod 256) 128); Z.div_mod_to_equations; lia.
Qed.

Lemma i16_id (x : Z) : in_i16 x -> i16 x = x.
Proof.
  unfold in_i16, i16, to_signed. intros H.
  change (2 ^ 16) with 65536. change (2 ^ (16 - 1)) with 32768.
  destruct (Z.ltb_spec (x mod 65536) 32768); Z.div_mod_to_equations; lia.
Qed.

Lemma i32_id (x : Z) : in_i32 x -> i32 x = x.
Proof.
  unfold in_i32, i32, to_signed. intros H.
  change (2 ^ 32) with 4294967296 in *.
  change (2 ^ (32 - 1)) with 2147483648 in *.
  change (2 ^ 31) with 2147483648 in *.
  destruct (Z.ltb_spec (x mod 4294967296) 2147483648);
    Z.div_mod_to_equations; lia.
Qed.

Lemma u8_id (x : Z) : in_u8 x -> u8 x = x.
Proof. unfold in_u8, u8, to_unsigned. intros H. apply Z.mod_small. lia. Qed.

Lemma u32_range (x : Z) : in_u32 (u32 x).
Proof.
  unfold in_u32, u32, to_unsigned. apply Z.mod_pos_bound. reflexivity.
Qed.

Lemma ABS_abs (x : Z) : ABS x = Z.abs x.
Proof. unfold ABS. destruct (Z.ltb_spec x 0); lia. Qed.

End MachIntFacts.

(** ** IEEE 754 binary32 comparisons *)

Module Float32Facts.
Import Float32.

Lemma compare_antisym (x y : float) :
  SFcompare y x = option_map CompOpp (SFcompare x y).
Proof.
  destruct x as [sx|sx| |sx mx ex], y as [sy|sy| |sy my ey];
    try reflexivity;
    try (destruct sx; reflexivity);
    try (destruct sy; reflexivity);
    try (destruct sx, sy; reflexivity).
  cbn [SFcompare option_map]. f_equal.
  rewrite (Z.compare_antisym ex ey).
  pose proof (Pos.compare_cont_antisym mx my Eq) as Hp.
  cbn [CompOpp] in Hp. rewrite <- Hp.
  destruct sx, sy; try reflexivity;
    destruct (ex ?= ey); cbn [CompOpp]; try reflexivity;
    destruct (Pos.compare_cont Eq mx my); reflexivity.
Qed.

Lemma compare_opp (x y : float) :
  SFcompare (SFopp x) (SFopp y) = SFcompare y x.
Proof.
  destruct x as [sx|sx| |sx mx ex], y as [sy|sy| |sy my ey];
    try reflexivity;
    try (destruct sx; reflexivity);
    try (destruct sy; reflexivity);
    try (destruct sx, sy; reflexivity).
  cbn [SFcompare SFopp]. f_equal.
  rewrite (Z.compare_antisym ex ey).
  pose proof (Pos.compare_cont_antisym mx my Eq) as Hp.
  cbn [CompOpp] in Hp. rewrite <- Hp.
  destruct sx, sy; cbn [negb]; try reflexivity;
    destruct (ex ?= ey); cbn [CompOpp]; try reflexivity;
    destruct (Pos.compare_cont Eq mx my); reflexivity.
Qed.

Lemma compare_refl (x : float) :
  is_nan x = false -> SFcompare x x = Some Eq.
Proof.
  destruct x as [s|s| |s m e]; cbn; intros H; try discriminate;
    try (destruct s; reflexivity).
  rewrite Z.compare_refl, Pos.compare_cont_refl. destruct s; reflexivity.
Qed.

Lemma compare_some (x y : float) :
  is_nan x = false -> is_nan y = false -> exists c, SFcompare x y = Some c.
Proof.
  destruct x as [sx|sx| |sx mx ex], y as [sy|sy| |sy my ey]; cbn;
    intros Hx Hy; try discriminate; eexists; reflexivity.
Qed.

Lemma opp_involutive (x : float) : SFopp (SFopp x) = x.
Proof.
  destruct x as [s|s| |s m e]; cbn; rewrite ?negb_involutive; reflexivity.
Qed.

(** [dt > 0.0f] excludes [dt <= 0.0f]. *)
Lemma gt_not_le (x y : float) : gt x y = true -> le x y = false.
Proof.
  unfold gt, le, SFltb, SFleb. rewrite (compare_antisym y x).
  destruct (SFcompare y x) as [[| |]|]; cbn; congruence.
Qed.

(** A value that passes [x >= 0] is not a NaN. *)
Lemma le_not_nan_r (x y : float) : le x y = true -> is_nan y = false.
Proof.
  unfold le, SFleb.
  destruct x as [sx|sx| |sx mx ex], y as [sy|sy| |sy my ey]; cbn;
    congruence.
Qed.

(** [x - 0.0f] is [x]. *)
Lemma sub_zero_r (x : float) : sub x zero = x.
Proof. destruct x as [[|]|s| |s m e]; reflexivity. Qed.

(** The magnitude of a non-negative value is the value, as far as
    comparisons can tell. *)
Lemma compare_abs_nonneg (x y : float) :
  le zero x = true -> SFcompare (SFabs x) y = SFcompare x y.
Proof.
  unfold le, SFleb, zero.
  destruct x as [sx|sx| |sx mx ex]; cbn; try discriminate.
  - intros _. destruct y; reflexivity.
  - destruct sx; [discriminate|reflexivity].
  - destruct sx; [discriminate|reflexivity].
Qed.

(** Either [x] is non-negative or its magnitude is its opposite. *)
Lemma abs_cases (x : float) :
  le zero x = true \/ SFabs x = SFopp x \/ is_nan x = true.
Proof.
  destruct x as [s|[|]| |[|] m e]; cbn; auto.
Qed.

(** What the anti-windup clamp guarantees: for a non-negative limit and a
    value that is not a NaN, the result is within the limit in
    magnitude. *)
Lemma clamp_bounded (limit x : float) :
  le zero limit = true -> is_nan x = false ->
  le (fabs (if gt x limit then limit
            else if lt x (neg limit) then neg limit else x)) limit = true.
Proof.
  intros Hl Hx. pose proof (le_not_nan_r _ _ Hl) as Hln.
  assert (Hll : le (fabs limit) limit = true).
  { unfold le, fabs, SFleb. rewrite compare_abs_nonneg by exact Hl.
    rewrite compare_refl by exact Hln. reflexivity. }
  destruct (gt x limit) eqn:Egt; [exact Hll|].
  destruct (lt x (neg limit)) eqn:Elt.
  { unfold le, fabs, neg in *.
    replace (SFabs (SFopp limit)) with (SFabs limit); [exact Hll|].
    destruct limit; reflexivity. }
  unfold gt, lt, le, fabs, neg, SFltb, SFleb in *.
  destruct (abs_cases x) as [Hpos|[Hneg|Hnan]]; [| |congruence].
  - rewrite compare_abs_nonneg by exact Hpos.
    rewrite (compare_antisym x limit) in Egt.
    destruct (compare_some x limit Hx Hln) as [c Hc]. rewrite Hc in *.
    destruct c; cbn in *; congruence.
  - rewrite Hneg. rewrite <- (opp_involutive limit) at 1.
    rewrite compare_opp.
    rewrite (compare_antisym x (SFopp limit)).
    assert (Hon : is_nan (SFopp limit) = false) by (destruct limit; auto).
    destruct (compare_some x (SFopp limit) Hx Hon) as [c Hc]. rewrite Hc in *.
    destruct c; cbn in *; congruence.
Qed.

(** *** Operations on finite values do not produce NaN *)

Lemma shr_1_nonneg (mrs : shr_record) :
  0 <= shr_m mrs -> 0 <= shr_m (shr_1 mrs).
Proof.
  destruct mrs as [m r s]. cbn [shr_m]. intros H.
  destruct m as [|[p|p|]|p]; cbn; lia.
Qed.

Lemma iter_pos_nonneg (n : positive) :
  forall mrs, 0 <= shr_m mrs -> 0 <= shr_m (iter_pos shr_1 n mrs).
Proof.
  induction n as [n IH|n IH|]; intros mrs H; cbn [iter_pos].
  - apply IH, IH, shr_1_nonneg, H.
  - apply IH, IH, H.
  - apply shr_1_nonneg, H.
Qed.

Lemma shr_fexp_nonneg (m e : Z) (l : location) :
  0 <= m -> 0 <= shr_m (fst (shr_fexp prec emax m e l)).
Proof.
  intros H. unfold shr_fexp, shr.
  assert (H0 : 0 <= shr_m (shr_record_of_loc m l)).
  { destruct l as [|[| |]]; exact H. }
  destruct (fexp prec emax (Zdigits2 m + e) - e) as [|p|p]; cbn [fst];
    try exact H0.
  apply iter_pos_nonneg, H0.
Qed.

Lemma round_nearest_even_nonneg (m : Z) (l : location) :
  0 <= m -> 0 <= round_nearest_even m l.
Proof.
  intros H. unfold round_nearest_even.
  destruct l as [|[| |]]; try destruct (Z.even m); lia.
Qed.

Lemma binary_round_aux_not_nan (sx : bool) (mx ex : Z) (lx : location) :
  0 <= mx -> is_nan (binary_round_aux prec emax sx mx ex lx) = false.
Proof.
  intros H. unfold binary_round_aux.
  pose proof (shr_fexp_nonneg mx ex lx H) as H1.
  destruct (shr_fexp prec emax mx ex lx) as [mrs' e']. cbn [fst] in H1.
  pose proof (shr_fexp_nonneg
                (round_nearest_even (shr_m mrs') (loc_of_shr_record mrs'))
                e' loc_Exact
                (round_nearest_even_nonneg _ _ H1)) as H2.
  destruct (shr_fexp prec emax _ e' loc_Exact) as [mrs'' e''].
  cbn [fst] in H2.
  destruct (shr_m mrs'') as [|m|m]; [reflexivity| |lia].
  destruct (e'' <=? emax - prec); reflexivity.
Qed.

Lemma binary_normalize_not_nan (m e : Z) (szero : bool) :
  is_nan (binary_normalize prec emax m e szero) = false.
Proof.
  unfold binary_normalize, binary_round.
  destruct m as [|p|p]; [reflexivity| |];
    destruct (shl_align _ _ _) as [mz ez];
    apply binary_round_aux_not_nan; lia.
Qed.

Lemma add_not_nan (x y : float) :
  is_finite x = true -> is_nan y = false -> is_nan (add x y) = false.
Proof.
  unfold add.
  destruct x as [sx|sx| |sx mx ex], y as [sy|sy| |sy my ey];
    cbn [is_finite is_nan];
    intros Hx Hy; try discriminate; cbn [SFadd]; try reflexivity.
  - destruct sx, sy; reflexivity.
  - apply binary_normalize_not_nan.
Qed.

Lemma sub_not_nan (x y : float) :
  is_finite x = true -> is_finite y = true -> is_nan (sub x y) = false.
Proof.
  unfold sub.
  destruct x as [sx|sx| |sx mx ex], y as [sy|sy| |sy my ey];
    cbn [is_finite is_nan];
    intros Hx Hy; try discriminate; cbn [SFsub]; try reflexivity.
  - destruct sx, sy; reflexivity.
  - apply binary_normalize_not_nan.
Qed.

(** A finite value that passes [dt > 0.0f] is a positive non-zero number. *)
Lemma finite_positive (dt : float) :
  is_finite dt = true -> gt dt zero = true ->
  exists m e, dt = S754_finite false m e.
Proof.
  unfold gt, zero, SFltb.
  destruct dt as [s|s| |[|] m e]; cbn; intros Hf Hgt; try discriminate.
  exists m, e. reflexivity.
Qed.

Lemma mul_not_nan (x dt : float) :
  is_nan x = false -> is_finite dt = true -> gt dt zero = true ->
  is_nan (mul x dt) = false.
Proof.
  intros Hx Hf Hgt. destruct (finite_positive dt Hf Hgt) as (m & e & ->).
  unfold mul.
  destruct x as [sx|sx| |sx mx ex]; cbn [is_nan] in Hx; try discriminate;
    cbn [SFmul]; try reflexivity.
  apply binary_round_aux_not_nan. lia.
Qed.

(** The sum that [pid_update] accumulates is not a NaN when the previous
    integral, the setpoint, the measurement and the time step are finite. *)
Lemma accumulated_not_nan (i s m dt : float) :
  is_finite i = true -> is_finite s = true -> is_finite m = true ->
  is_finite dt = true -> gt dt zero = true ->
  is_nan (add i (mul (sub s m) dt)) = false.
Proof.
  intros Hi Hs Hm Hdt Hgt.
  apply add_not_nan; [exact Hi|].
  apply mul_not_nan; [|exact Hdt|exact Hgt].
  apply sub_not_nan; assumption.
Qed.

End Float32Facts.

(** ** The PID controller *)

Module PidSpec.
Import Float32 Float32Facts Pid.

(** A call with [dt > 0] passes the assertion and the guard. *)
Lemma pid_update_runs (ndebug : bool) (pid : PidController_t)
  (s m dt : float) :
  gt dt zero = true ->
  pid_update ndebug pid s m dt
  = Some ({| kp := kp pid; ki := ki pid; kd := kd pid;
             integral :=
               clamp_integral (integral_limit pid)
                 (integral pid + (s - m) * dt)%f32;
             prev_error := (s - m)%f32;
             prev_measurement := m;
             integral_limit := integral_limit pid;
             output_min := output_min pid;
             output_max := output_max pid;
             use_derivative_on_measurement :=
               use_derivative_on_measurement pid |},
          clamp_output (output_min pid) (output_max pid)
            (kp pid * (s - m)
             + ki pid * clamp_integral (integral_limit pid)
                          (integral pid + (s - m) * dt)
             + (if use_derivative_on_measurement pid
                then - kd pid * ((m - prev_measurement pid) / dt)
                else kd pid * (((s - m) - prev_error pid) / dt)))%f32).
Proof.
  intros Hgt. unfold pid_update.
  rewrite Hgt, P10_ASSERT_true. cbn [P10.bind].
  rewrite (gt_not_le _ _ Hgt).
  destruct (use_derivative_on_measurement pid); reflexivity.
Qed.

(** C5 as stated fails, in two ways.  With kp = ki = 0, kd = 1 (derivative
    on measurement), setpoint = measurement = 1 and dt = 1 the error is 0 and
    the specified value is 0, but the code returns -1: the derivative term
    -kd*(m - 0)/dt is part of the output.  With ki = 1, integral limit 5,
    error 100 and dt = 1 the specified value is 100, but the code returns 5:
    the integral is clamped before it is used. *)
Lemma reset_update_counterexample :
  option_map snd
    (pid_update false (pid_reset derivative_only) (of_Z 1) (of_Z 1) (of_Z 1))
  = Some (of_Z (-1))
  /\ first_step_as_specified derivative_only (of_Z 1) (of_Z 1) (of_Z 1)
     = zero
  /\ option_map snd
       (pid_update false (pid_reset integral_only) (of_Z 100) zero (of_Z 1))
     = Some (of_Z 5)
  /\ first_step_as_specified integral_only (of_Z 100) zero (of_Z 1)
     = of_Z 100.
Proof. repeat split; vm_compute; reflexivity. Qed.

(** C5, amended. For every gain configuration and every dt > 0, [pid_reset]
    followed by one [pid_update] with setpoint s and measurement m returns,
    with e = s - m, the value kp*e + ki*I + D clamped to
    [output_min, output_max], where I is 0 + e*dt clamped to
    +/- integral_limit and D is the derivative term against the zeroed
    history: -kd*(m/dt) in derivative-on-measurement mode, kd*(e/dt)
    otherwise.  The result depends on the gains, limits and mode only: two
    controllers with the same configuration give the same output and the
    same state, whatever their state before the reset. *)
Theorem reset_then_update (ndebug : bool) (pid other : PidController_t)
  (s m dt : float) :
  gt dt zero = true ->
  same_configuration pid other ->
  exists pid',
    pid_update ndebug (pid_reset pid) s m dt
    = Some (pid', first_step pid s m dt)
    /\ pid_update ndebug (pid_reset other) s m dt
       = Some (pid', first_step pid s m dt)
    /\ integral pid'
       = clamp_integral (integral_limit pid) (zero + (s - m) * dt)%f32
    /\ prev_error pid' = (s - m)%f32
    /\ prev_measurement pid' = m.
Proof.
  intros Hgt (Ekp & Eki & Ekd & El & Emin & Emax & Emode).
  rewrite !(pid_update_runs _ _ _ _ _ Hgt).
  unfold pid_reset, first_step.
  cbn [kp ki kd integral prev_error prev_measurement integral_limit
       output_min output_max use_derivative_on_measurement].
  rewrite <- Ekp, <- Eki, <- Ekd, <- El, <- Emin, <- Emax, <- Emode.
  change ((m - zero)%f32) with (sub m zero).
  change (((s - m) - zero)%f32) with (sub (s - m)%f32 zero).
  rewrite !sub_zero_r.
  eexists. split; [reflexivity|]. split; [reflexivity|].
  repeat split.
Qed.

Lemma reset_then_update_witness :
  gt (of_Z 1) zero = true /\
  same_configuration derivative_only (pid_init zero zero (of_Z 1)) /\
  exists pid',
    pid_update false (pid_reset derivative_only) (of_Z 1) (of_Z 1) (of_Z 1)
    = Some (pid', first_step derivative_only (of_Z 1) (of_Z 1) (of_Z 1))
    /\ pid_update false (pid_reset (pid_init zero zero (of_Z 1)))
         (of_Z 1) (of_Z 1) (of_Z 1)
       = Some (pid', first_step derivative_only (of_Z 1) (of_Z 1) (of_Z 1))
    /\ integral pid'
       = clamp_integral (integral_limit derivative_only)
           (zero + (of_Z 1 - of_Z 1) * of_Z 1)%f32
    /\ prev_error pid' = (of_Z 1 - of_Z 1)%f32
    /\ prev_measurement pid' = of_Z 1.
Proof.
  assert (Hgt : gt (of_Z 1) zero = true) by reflexivity.
  assert (Hc : same_configuration derivative_only
                 (pid_init zero zero (of_Z 1)))
    by (repeat split).
  split; [exact Hgt|]. split; [exact Hc|].
  exact (reset_then_update false derivative_only
           (pid_init zero zero (of_Z 1)) (of_Z 1) (of_Z 1) (of_Z 1) Hgt Hc).
Defined.

(** C6 as stated fails on a NaN: with a setpoint that is not a number the
    error and the accumulated integral are NaN, both clamp comparisons are
    false, and the stored integral is NaN, which is not <= the limit. *)
Lemma integral_nan_counterexample :
  le zero (integral_limit (pid_init zero (of_Z 1) zero)) = true
  /\ gt (of_Z 1) zero = true
  /\ option_map (fun r => integral (fst r))
       (pid_update false (pid_init zero (of_Z 1) zero)
          S754_nan zero (of_Z 1))
     = Some S754_nan
  /\ le (fabs S754_nan) (integral_limit (pid_init zero (of_Z 1) zero))
     = false.
Proof. repeat split; vm_compute; reflexivity. Qed.

(** One update keeps the integral within a non-negative limit, provided
    the accumulated sum is not a NaN. *)
Lemma integral_bounded_step (ndebug : bool) (pid : PidController_t)
  (s m dt : float) :
  le zero (integral_limit pid) = true ->
  gt dt zero = true ->
  is_nan (integral pid + (s - m) * dt)%f32 = false ->
  exists pid' out,
    pid_update ndebug pid s m dt = Some (pid', out) /\
    integral_limit pid' = integral_limit pid /\
    le (fabs (integral pid')) (integral_limit pid') = true.
Proof.
  intros Hl Hgt Hnan.
  rewrite (pid_update_runs _ _ _ _ _ Hgt).
  do 2 eexists. split; [reflexivity|].
  cbn [integral integral_limit]. split; [reflexivity|].
  apply clamp_bounded; assumption.
Qed.

(** A value within a finite limit is finite. *)
Lemma bounded_is_finite (x limit : float) :
  is_finite limit = true -> le (fabs x) limit = true -> is_finite x = true.
Proof.
  unfold le, fabs, SFleb.
  destruct x as [sx|sx| |sx mx ex], limit as [sl|sl| |sl ml el];
    cbn; congruence.
Qed.

(** Any number of updates with finite inputs and a finite limit. *)
Lemma integral_bounded_sustained (ndebug : bool) (s m dt : float)
  (n : nat) :
  gt dt zero = true ->
  is_finite s = true -> is_finite m = true -> is_finite dt = true ->
  forall pid,
    le zero (integral_limit pid) = true ->
    is_finite (integral_limit pid) = true ->
    is_finite (integral pid) = true ->
    exists pid',
      pid_updates ndebug pid s m dt (S n) = Some pid' /\
      integral_limit pid' = integral_limit pid /\
      le (fabs (integral pid')) (integral_limit pid') = true.
Proof.
  intros Hgt Hs Hm Hdt.
  induction n as [|n IH]; intros pid Hl Hlf Hi;
    destruct (integral_bounded_step ndebug pid s m dt Hl Hgt
                (accumulated_not_nan _ _ _ _ Hi Hs Hm Hdt Hgt))
      as (pid1 & out & E & El & Hb).
  - exists pid1. cbn [pid_updates]. rewrite E. cbn. auto.
  - destruct (IH pid1) as (pid' & E' & El' & Hb').
    + rewrite El. exact Hl.
    + rewrite El. exact Hlf.
    + apply (bounded_is_finite _ (integral_limit pid1)); [|exact Hb].
      rewrite El. exact Hlf.
    + exists pid'. split; [|split; [congruence|exact Hb']].
      change (pid_updates ndebug pid s m dt (S (S n)))
        with (r <- pid_update ndebug pid s m dt ;;
              pid_updates ndebug (fst r) s m dt (S n)).
      rewrite E. exact E'.
Qed.

(** C6, amended. For every controller whose integral limit is non-negative
    and every [pid_update] call with dt > 0 in which the accumulated sum
    integral + error*dt is not a NaN -- in particular whenever the previous
    integral, the setpoint, the measurement and dt are finite -- the call
    returns and the stored integral satisfies |integral| <= integral_limit
    (the limit itself is unchanged).  Consequently, with a finite limit and
    a finite previous integral, the bound holds after any number n >= 1 of
    updates under a sustained finite setpoint and measurement. *)
Theorem integral_bounded_after_update (ndebug : bool) (pid : PidController_t)
  (s m dt : float) :
  le zero (integral_limit pid) = true ->
  gt dt zero = true ->
  (is_nan (integral pid + (s - m) * dt)%f32 = false
   \/ (is_finite (integral pid) = true /\ is_finite s = true /\
       is_finite m = true /\ is_finite dt = true) ->
   exists pid' out,
     pid_update ndebug pid s m dt = Some (pid', out) /\
     integral_limit pid' = integral_limit pid /\
     le (fabs (integral pid')) (integral_limit pid') = true)
  /\
  (is_finite (integral_limit pid) = true ->
   is_finite (integral pid) = true -> is_finite s = true ->
   is_finite m = true -> is_finite dt = true ->
   forall n,
   exists pid',
     pid_updates ndebug pid s m dt (S n) = Some pid' /\
     integral_limit pid' = integral_limit pid /\
     le (fabs (integral pid')) (integral_limit pid') = true).
Proof.
  intros Hl Hgt. split.
  - intros Hsum. apply integral_bounded_step; [exact Hl|exact Hgt|].
    destruct Hsum as [H|(Hi & Hs & Hm & Hdt)]; [exact H|].
    apply accumulated_not_nan; assumption.
  - intros Hlf Hi Hs Hm Hdt n.
    apply integral_bounded_sustained; assumption.
Qed.

Lemma integral_bounded_after_update_witness :
  le zero (integral_limit integral_only) = true /\
  gt (of_Z 1) zero = true /\
  exists pid',
    pid_updates false integral_only (of_Z 100) zero (of_Z 1) 10
    = Some pid' /\
    integral_limit pid' = integral_limit integral_only /\
    le (fabs (integral pid')) (integral_limit pid') = true.
Proof.
  assert (Hl : le zero (integral_limit integral_only) = true) by reflexivity.
  assert (Hgt : gt (of_Z 1) zero = true) by reflexivity.
  split; [exact Hl|]. split; [exact Hgt|].
  apply (proj2 (integral_bounded_after_update false integral_only
                  (of_Z 100) zero (of_Z 1) Hl Hgt)); reflexivity.
Defined.

(** The anti-windup unit test: ten updates with error 100 and dt = 1 leave
    the integral at the limit of 5. *)
Example antiwindup_ten_updates :
  option_map integral
    (pid_updates false integral_only (of_Z 100) zero (of_Z 1) 10)
  = Some (of_Z 5).
Proof. vm_compute. reflexivity. Qed.

End PidSpec.

(** ** The vehicle state machine *)

Module StateMachineSpec.
Import StateMachine.

Lemma set_target_depth_state (ndebug : bool) (sm sm' : StateMachine_t) (d : Z) :
  state_machine_set_target_depth ndebug sm d = Some sm' ->
  state sm' = state sm /\
  ballast_target_level sm' = ballast_target_level sm /\
  depth_hold_enabled sm' = depth_hold_enabled sm.
Proof.
  unfold state_machine_set_target_depth, P10.bind.
  destruct (P10.P10_ASSERT ndebug (d >=? 0)); [|discriminate].
  destruct (P10.P10_ASSERT ndebug (d <=? MAX_DEPTH_CM)); [|discriminate].
  destruct ((d <? 0) || (d >? MAX_DEPTH_CM));
    intros H; injection H as <-; auto.
Qed.

Lemma process_emergency_safe (ndebug : bool) (sm sm' : StateMachine_t)
  (cmd : Command_t) (d now : Z) :
  emergency_safe sm ->
  state_machine_process ndebug sm cmd d now = Some sm' ->
  emergency_safe sm'.
Proof.
  intros Hsafe. unfold state_machine_process.
  destruct (cmd_is cmd CMD_EMERGENCY).
  { intros H; injection H as <-. intros _. split; reflexivity. }
  destruct (state_is (state sm) STATE_EMERGENCY).
  { intros H; injection H as <-. exact Hsafe. }
  destruct (state sm) eqn:Hst.
  - intros H; injection H as <-. intros Hc; cbn in Hc; congruence.
  - intros H; injection H as <-. unfold state_machine_handle_surface.
    destruct (_ && _); intros Hc; cbn in Hc; congruence.
  - intros H; injection H as <-. unfold state_machine_handle_diving.
    destruct (cmd_is cmd CMD_SURFACE); [intros Hc; cbn in Hc; congruence|].
    destruct (d >=? DIVE_COMPLETE_CM); intros Hc; cbn in Hc; congruence.
  - unfold state_machine_handle_submerged_manual.
    destruct (cmd_is cmd CMD_SURFACE).
    { intros H; injection H as <-. intros Hc; cbn in Hc; congruence. }
    destruct (cmd_is cmd CMD_DEPTH_HOLD).
    + unfold P10.bind.
      destruct (state_machine_set_target_depth _ _ _) as [sm1|] eqn:Hset;
        [|discriminate].
      apply set_target_depth_state in Hset. destruct Hset as (Hs & _).
      intros H; injection H as <-. intros Hc. cbn in Hc, Hs. congruence.
    + intros H; injection H as <-. intros Hc. cbn in Hc. congruence.
  - intros H; injection H as <-.
    unfold state_machine_handle_submerged_depth_hold.
    destruct (cmd_is cmd CMD_SURFACE); [intros Hc; cbn in Hc; congruence|].
    destruct (cmd_is cmd CMD_MANUAL); intros Hc; cbn in Hc; congruence.
  - intros H; injection H as <-. unfold state_machine_handle_surfacing.
    destruct (d <=? SURFACE_DEPTH_CM); intros Hc; cbn in Hc; congruence.
  - intros H; injection H as <-. exact Hsafe.
Qed.

Lemma do_call_emergency_safe (ndebug : bool) (sm sm' : StateMachine_t)
  (c : call) :
  emergency_safe sm -> do_call ndebug sm c = Some sm' -> emergency_safe sm'.
Proof.
  intros Hsafe. destruct c as [d| |cmd d now]; cbn [do_call].
  - intros Hset Hst. apply set_target_depth_state in Hset.
    destruct Hset as (Hs & Hb & Hh). rewrite Hb, Hh. apply Hsafe. congruence.
  - intros H; injection H as <-. intros _. split; reflexivity.
  - apply process_emergency_safe. exact Hsafe.
Qed.

Lemma do_calls_emergency_safe (ndebug : bool) (cs : list call) :
  forall sm sm', emergency_safe sm -> do_calls ndebug sm cs = Some sm' ->
                 emergency_safe sm'.
Proof.
  induction cs as [|c cs IH]; intros sm sm' Hsafe; cbn [do_calls].
  - intros H; injection H as <-. exact Hsafe.
  - unfold P10.bind. destruct (do_call ndebug sm c) as [sm1|] eqn:Hc;
      [|discriminate].
    apply IH. eapply do_call_emergency_safe; eauto.
Qed.

Lemma reachable_emergency_safe (ndebug : bool) (sm : StateMachine_t) :
  reachable ndebug sm -> emergency_safe sm.
Proof.
  intros [cs Hcs]. eapply do_calls_emergency_safe; [|exact Hcs].
  intros Hc; discriminate Hc.
Qed.

(** In the emergency state, [state_machine_process] returns and changes
    nothing but what [state_machine_trigger_emergency] re-asserts. *)
Lemma process_in_emergency (ndebug : bool) (sm : StateMachine_t)
  (cmd : Command_t) (d now : Z) :
  state sm = STATE_EMERGENCY ->
  ballast_target_level sm = -100 -> depth_hold_enabled sm = false ->
  state_machine_process ndebug sm cmd d now = Some sm.
Proof.
  intros Hs Hb Hh. unfold state_machine_process.
  destruct (cmd_is cmd CMD_EMERGENCY).
  - destruct sm; cbn in *; subst; reflexivity.
  - rewrite Hs. reflexivity.
Qed.

(** C3. Emergency is absorbing: once a state machine (initialised and driven
    through its interface) is in [STATE_EMERGENCY], every further sequence
    of [state_machine_process] calls, whatever the commands, measured depths
    and times, returns with the state still [STATE_EMERGENCY], the ballast
    target at -100 and depth hold disabled. *)
Theorem emergency_absorbing (ndebug : bool) (sm : StateMachine_t)
  (inputs : list (Command_t * Z * Z)) :
  reachable ndebug sm ->
  state sm = STATE_EMERGENCY ->
  exists sm',
    state_machine_process_all ndebug sm inputs = Some sm' /\
    state sm' = STATE_EMERGENCY /\
    ballast_target_level sm' = -100 /\
    depth_hold_enabled sm' = false.
Proof.
  intros Hreach Hs.
  destruct (reachable_emergency_safe _ _ Hreach Hs) as [Hb Hh].
  exists sm. split; [|auto].
  induction inputs as [|[[cmd d] now] inputs IH]; [reflexivity|].
  cbn [state_machine_process_all].
  rewrite process_in_emergency by assumption. exact IH.
Qed.

Lemma emergency_absorbing_witness :
  exists sm',
    state_machine_process_all false
      (mkSM STATE_EMERGENCY 0 0 (-100) false)
      [(CMD_DIVE, 60, 20); (CMD_SURFACE, 0, 30); (CMD_EMERGENCY, 0, 40);
       (CMD_DEPTH_HOLD, 500, 50)] = Some sm' /\
    state sm' = STATE_EMERGENCY /\
    ballast_target_level sm' = -100 /\
    depth_hold_enabled sm' = false.
Proof.
  apply (emergency_absorbing false (mkSM STATE_EMERGENCY 0 0 (-100) false)).
  - exists [Call_process CMD_NONE 0 0; Call_process CMD_EMERGENCY 0 10].
    reflexivity.
  - reflexivity.
Defined.

(** The scenario of the specification ends in SubmergedManual with the
    target depth still 150, in either build. *)
Example dive_scenario_result (ndebug : bool) :
  do_calls ndebug state_machine_init dive_scenario
  = Some (mkSM STATE_SUBMERGED_MANUAL 150 10 0 false).
Proof. destruct ndebug; reflexivity. Qed.

(** ... and a depth-hold command at measured depth 60 sets the target to 60. *)
Example dive_scenario_depth_hold :
  state_machine_process false (mkSM STATE_SUBMERGED_MANUAL 150 10 0 false)
    CMD_DEPTH_HOLD 60 20
  = Some (mkSM STATE_SUBMERGED_DEPTH_HOLD 60 10 0 true).
Proof. reflexivity. Qed.

(** C7 as stated fails: after the scenario above, a depth-hold command at a
    measured depth of 350 cm (beyond [MAX_DEPTH_CM]) does not store 350.
    With assertions compiled out the machine enters SubmergedDepthHold and
    keeps the previous target of 150; in a debug build the range assertion
    of [state_machine_set_target_depth] fails. *)
Lemma depth_hold_target_counterexample :
  state_machine_process true (mkSM STATE_SUBMERGED_MANUAL 150 10 0 false)
    CMD_DEPTH_HOLD 350 20
  = Some (mkSM STATE_SUBMERGED_DEPTH_HOLD 150 10 0 true)
  /\ state_machine_process false (mkSM STATE_SUBMERGED_MANUAL 150 10 0 false)
       CMD_DEPTH_HOLD 350 20
     = None.
Proof. split; reflexivity. Qed.

(** C7, amended. In SubmergedManual a depth-hold command moves the machine
    to SubmergedDepthHold with depth hold enabled and ballast target 0; the
    stored target becomes the measured depth of that call whenever that
    depth lies in [0, MAX_DEPTH_CM], whatever target was stored before.  A
    measured depth outside that range is rejected: with assertions compiled
    out the previous target is kept, in a debug build the assertion fails. *)
Theorem depth_hold_sets_target_in_range (ndebug : bool) (sm : StateMachine_t)
  (depth_cm now_ms : Z) :
  state sm = STATE_SUBMERGED_MANUAL ->
  (0 <= depth_cm <= MAX_DEPTH_CM ->
   state_machine_process ndebug sm CMD_DEPTH_HOLD depth_cm now_ms
   = Some (mkSM STATE_SUBMERGED_DEPTH_HOLD depth_cm (state_start_ms sm)
                0 true))
  /\
  (~ 0 <= depth_cm <= MAX_DEPTH_CM ->
   state_machine_process true sm CMD_DEPTH_HOLD depth_cm now_ms
   = Some (mkSM STATE_SUBMERGED_DEPTH_HOLD (target_depth_cm sm)
                (state_start_ms sm) 0 true)
   /\ state_machine_process false sm CMD_DEPTH_HOLD depth_cm now_ms = None).
Proof.
  intros Hs. unfold state_machine_process. rewrite Hs. cbn [cmd_is state_is].
  cbn. unfold state_machine_set_target_depth, MAX_DEPTH_CM. split.
  - intros [H0 Hmax].
    assert (E1 : (depth_cm >=? 0) = true) by (apply Z.geb_le; lia).
    assert (E2 : (depth_cm <=? 300) = true) by (apply Z.leb_le; lia).
    assert (E3 : (depth_cm <? 0) = false) by (apply Z.ltb_ge; lia).
    assert (E4 : (depth_cm >? 300) = false)
      by (rewrite Z.gtb_ltb; apply Z.ltb_ge; lia).
    rewrite E1, E2, !P10_ASSERT_true. cbn. rewrite E3, E4. reflexivity.
  - intros Hout. split.
    + cbn.
      assert (E : (depth_cm <? 0) || (depth_cm >? 300) = true).
      { apply orb_true_iff. rewrite Z.gtb_ltb, !Z.ltb_lt. lia. }
      rewrite E. reflexivity.
    + destruct (depth_cm >=? 0) eqn:E1; cbn; [|reflexivity].
      destruct (depth_cm <=? 300) eqn:E2; cbn; [|reflexivity].
      apply Z.geb_le in E1. apply Z.leb_le in E2. lia.
Qed.

Lemma depth_hold_sets_target_in_range_witness :
  (0 <= 60 <= MAX_DEPTH_CM ->
   state_machine_process false (mkSM STATE_SUBMERGED_MANUAL 150 10 0 false)
     CMD_DEPTH_HOLD 60 20
   = Some (mkSM STATE_SUBMERGED_DEPTH_HOLD 60 10 0 true))
  /\
  (~ 0 <= 60 <= MAX_DEPTH_CM ->
   state_machine_process true (mkSM STATE_SUBMERGED_MANUAL 150 10 0 false)
     CMD_DEPTH_HOLD 60 20
   = Some (mkSM STATE_SUBMERGED_DEPTH_HOLD 150 10 0 true)
   /\ state_machine_process false (mkSM STATE_SUBMERGED_MANUAL 150 10 0 false)
        CMD_DEPTH_HOLD 60 20 = None).
Proof.
  apply (depth_hold_sets_target_in_range false
           (mkSM STATE_SUBMERGED_MANUAL 150 10 0 false) 60 20).
  reflexivity.
Defined.

End StateMachineSpec.

(** ** The ballast state machine *)

Module BallastSpec.
Import MachInt MachIntFacts Ballast.

(** The error and its magnitude as [ballast_ctrl_update] computes them are
    the mathematical ones, the two levels being [int8_t]. *)
Lemma error_exact (t c : Z) :
  in_i8 t -> in_i8 c ->
  i16 (t - c) = t - c /\ i16 (ABS (i16 (t - c))) = Z.abs (t - c).
Proof.
  unfold in_i8. intros Ht Hc.
  assert (E : i16 (t - c) = t - c) by (apply i16_id; unfold in_i16; lia).
  rewrite E, ABS_abs. split; [reflexivity|].
  apply i16_id. unfold in_i16. lia.
Qed.

(** C9. In Idle, an update whose level error satisfies
    |target - current| <= tolerance leaves the controller as it is, in Idle,
    with pump speed 0 and the valve closed; the controller leaves Idle
    exactly when the error strictly exceeds the tolerance, to Filling when
    target > current and to Draining when target < current.  In Holding the
    controller reverts to Idle exactly when the error strictly exceeds
    twice the tolerance, and otherwise stays in Holding; either way the pump
    speed is 0 and the valve closed. *)
Theorem idle_and_holding_thresholds (ndebug : bool)
  (ctrl : BallastController_t) (now_ms : Z) :
  in_i8 (target_level ctrl) -> in_i8 (current_level ctrl) ->
  (state ctrl = BALLAST_STATE_IDLE ->
   (Z.abs (level_error ctrl) <= BALLAST_LEVEL_TOLERANCE ->
    ballast_ctrl_update ndebug ctrl now_ms = Some (ctrl, 0, false))
   /\
   (Z.abs (level_error ctrl) > BALLAST_LEVEL_TOLERANCE ->
    target_level ctrl > current_level ctrl ->
    ballast_ctrl_update ndebug ctrl now_ms
    = Some (set_last_update_ms (set_state ctrl BALLAST_STATE_FILLING) 0,
            100, false))
   /\
   (Z.abs (level_error ctrl) > BALLAST_LEVEL_TOLERANCE ->
    target_level ctrl < current_level ctrl ->
    ballast_ctrl_update ndebug ctrl now_ms
    = Some (set_last_update_ms (set_state ctrl BALLAST_STATE_DRAINING) 0,
            -100, true)))
  /\
  (state ctrl = BALLAST_STATE_HOLDING ->
   (Z.abs (level_error ctrl) > 2 * BALLAST_LEVEL_TOLERANCE ->
    ballast_ctrl_update ndebug ctrl now_ms
    = Some (set_state ctrl BALLAST_STATE_IDLE, 0, false))
   /\
   (Z.abs (level_error ctrl) <= 2 * BALLAST_LEVEL_TOLERANCE ->
    ballast_ctrl_update ndebug ctrl now_ms = Some (ctrl, 0, false))).
Proof.
  intros Ht Hc. unfold level_error.
  destruct (error_exact _ _ Ht Hc) as [Eerr Eabs].
  unfold ballast_ctrl_update, ballast_ctrl_default_outputs,
    BALLAST_LEVEL_TOLERANCE.
  rewrite Eabs, Eerr.
  set (err := target_level ctrl - current_level ctrl).
  split; intros Hs; rewrite Hs.
  - repeat split; intros Habs.
    + destruct (Z.gtb_spec (Z.abs err) 5); [lia|reflexivity].
    + intros Hgt. destruct (Z.gtb_spec (Z.abs err) 5); [|lia].
      destruct (Z.gtb_spec err 0); [reflexivity|lia].
    + intros Hlt. destruct (Z.gtb_spec (Z.abs err) 5); [|lia].
      destruct (Z.gtb_spec err 0); [lia|reflexivity].
  - split; intros Habs.
    + destruct (Z.gtb_spec (Z.abs err) (5 * 2)); [reflexivity|lia].
    + destruct (Z.gtb_spec (Z.abs err) (5 * 2)); [lia|reflexivity].
Qed.

Lemma idle_and_holding_thresholds_witness :
  in_i8 5 /\ in_i8 0 /\
  ballast_ctrl_update false (mkBallast BALLAST_STATE_IDLE 5 0 0 0 10000) 1234
  = Some (mkBallast BALLAST_STATE_IDLE 5 0 0 0 10000, 0, false).
Proof.
  assert (H5 : in_i8 5) by (unfold in_i8; lia).
  assert (H0 : in_i8 0) by (unfold in_i8; lia).
  split; [exact H5|]. split; [exact H0|].
  destruct (idle_and_holding_thresholds false
              (mkBallast BALLAST_STATE_IDLE 5 0 0 0 10000) 1234 H5 H0)
    as [Hidle _].
  destruct (Hidle eq_refl) as [Hstay _].
  apply Hstay. unfold level_error, BALLAST_LEVEL_TOLERANCE. cbn. lia.
Defined.

(** The tie-break of the specification: an error exactly equal to the
    tolerance stays in Idle. *)
Example tie_break_stays_idle :
  ballast_ctrl_update false (mkBallast BALLAST_STATE_IDLE 5 0 0 0 10000) 1234
  = Some (mkBallast BALLAST_STATE_IDLE 5 0 0 0 10000, 0, false).
Proof. reflexivity. Qed.

(** *** Reachable controllers *)

Lemma inv_init : inv ballast_ctrl_init.
Proof. split; cbn; unfold in_u32; try lia; reflexivity. Qed.

Lemma clamp_i8_level (ndebug : bool) (v : Z) :
  exists lvl, clamp_i8 ndebug v (-100) 100 = Some lvl /\ -100 <= lvl <= 100
              /\ (-100 <= v <= 100 -> lvl = v).
Proof.
  unfold clamp_i8. change (-100 <? 100) with true.
  rewrite P10_ASSERT_true. cbn [P10.bind].
  destruct (Z.ltb_spec v (-100)).
  { exists (-100). repeat split; lia. }
  destruct (Z.gtb_spec v 100).
  { exists 100. repeat split; lia. }
  exists (i8 v). rewrite i8_id by (unfold in_i8; lia).
  repeat split; lia.
Qed.

Lemma set_target_inv (ndebug : bool) (ctrl : BallastController_t) (level : Z) :
  inv ctrl -> in_i8 level ->
  exists ctrl', ballast_ctrl_set_target ndebug ctrl level = Some ctrl' /\
                inv ctrl'.
Proof.
  intros [Ht Hc Hx Hl Hf] Hlevel. unfold ballast_ctrl_set_target.
  destruct (clamp_i8_level ndebug (i16 level)) as (lvl & E & Hr & _).
  rewrite E. cbn [P10.bind]. eexists. split; [reflexivity|].
  split; cbn; assumption.
Qed.

(** The increment of one integration step lies between 0 and the full
    range, whatever the elapsed time. *)
Lemma delta_bounds (ndebug : bool) (dt_ms : Z) :
  in_u32 dt_ms ->
  exists delta,
    ballast_delta_x1000 ndebug dt_ms BALLAST_FILL_TIME_MS = Some delta /\
    0 <= delta <= 200000.
Proof.
  unfold in_u32. intros Hdt.
  unfold ballast_delta_x1000, clamp_dt_ms, BALLAST_FILL_TIME_MS.
  change (10000 >? 0) with true. change (10000 =? 0) with false.
  rewrite !P10_ASSERT_true. cbn [P10.bind].
  unfold BALLAST_FULL_RANGE_UNITS, BALLAST_SCALE_X1000, INT32_MAX, to_unsigned.
  change (200 * 1000) with 200000.
  assert (P64 : 2 ^ 64 = 18446744073709551616) by reflexivity.
  assert (P31 : 2 ^ 31 - 1 = 2147483647) by reflexivity.
  rewrite P64, P31.
  destruct (Z.gtb_spec dt_ms 10000); cbn [P10.bind].
  - change (10000 * 200000 mod 18446744073709551616 / 10000) with 200000.
    change (200000 >? 2147483647) with false.
    exists 200000. split; [reflexivity|lia].
  - rewrite Z.mod_small by lia.
    assert (Hq : 0 <= dt_ms * 200000 / 10000 <= 200000).
    { split.
      - apply Z.div_pos; lia.
      - apply Z.div_le_upper_bound; lia. }
    destruct (Z.gtb_spec (dt_ms * 200000 / 10000) 2147483647); [lia|].
    eexists. split; [reflexivity|exact Hq].
Qed.

(** One integration step on a reachable controller returns, keeps the
    invariant and touches neither the state nor the target. *)
Lemma update_level_inv (ndebug : bool) (ctrl : BallastController_t)
  (direction now_ms : Z) :
  inv ctrl -> in_u32 now_ms -> direction = 1 \/ direction = -1 ->
  exists ctrl',
    ballast_update_level ndebug ctrl direction now_ms = Some ctrl' /\
    inv ctrl' /\ state ctrl' = state ctrl /\
    target_level ctrl' = target_level ctrl.
Proof.
  intros [Ht Hc Hx Hl Hf] Hnow Hdir. unfold ballast_update_level.
  assert (Ed : ((direction =? -1) || (direction =? 1)) = true).
  { destruct Hdir; subst; reflexivity. }
  rewrite Ed, P10_ASSERT_true. cbn [P10.bind].
  destruct (Z.eqb_spec (last_update_ms ctrl) 0) as [E0|N0].
  { eexists. split; [reflexivity|].
    split; [split; cbn; assumption|split; reflexivity]. }
  cbn [fill_time_ms set_last_update_ms]. rewrite Hf.
  destruct (delta_bounds ndebug (u32 (now_ms - last_update_ms ctrl))
              (u32_range _)) as (delta & Edelta & Hdelta).
  rewrite Edelta. cbn [P10.bind].
  cbn [current_level_x1000 set_last_update_ms set_current_level_x1000].
  unfold BALLAST_SCALE_X1000.
  change (-100 * 1000) with (-100000). change (100 * 1000) with 100000.
  assert (Hsum : in_i32 (current_level_x1000 ctrl + direction * delta)).
  { unfold in_i32. change (2 ^ 31) with 2147483648.
    destruct Hdir; subst; lia. }
  rewrite (i32_id _ Hsum).
  set (x := current_level_x1000 ctrl + direction * delta).
  assert (Hclamp : exists x',
    (if x <? -100000
     then set_current_level_x1000
            (set_current_level_x1000 (set_last_update_ms ctrl now_ms) x)
            (-100000)
     else if x >? 100000
          then set_current_level_x1000
                 (set_current_level_x1000 (set_last_update_ms ctrl now_ms) x)
                 100000
          else set_current_level_x1000 (set_last_update_ms ctrl now_ms) x)
    = set_current_level_x1000 (set_last_update_ms ctrl now_ms) x'
    /\ -100000 <= x' <= 100000).
  { destruct (Z.ltb_spec x (-100000));
      [exists (-100000); split; [reflexivity|lia]|].
    destruct (Z.gtb_spec x 100000); [exists 100000; split; [reflexivity|lia]|].
    exists x. split; [reflexivity|lia]. }
  destruct Hclamp as (x' & -> & Hx').
  cbn [current_level_x1000 set_current_level_x1000].
  assert (Hq : -100 <= Z.quot x' 1000 <= 100).
  { split.
    - apply Z.quot_le_lower_bound; lia.
    - apply Z.quot_le_upper_bound; lia. }
  rewrite (i16_id (Z.quot x' 1000)) by (unfold in_i16; lia).
  destruct (clamp_i8_level ndebug (Z.quot x' 1000)) as (lvl & E & Hr & _).
  rewrite E. cbn [P10.bind]. eexists. split; [reflexivity|].
  split; [split; cbn; assumption|split; reflexivity].
Qed.

Lemma update_inv (ndebug : bool) (ctrl : BallastController_t) (now_ms : Z) :
  inv ctrl -> in_u32 now_ms ->
  exists ctrl' pump valve,
    ballast_ctrl_update ndebug ctrl now_ms = Some (ctrl', pump, valve) /\
    inv ctrl'.
Proof.
  intros Hinv Hnow. unfold ballast_ctrl_update, ballast_ctrl_default_outputs.
  destruct (state ctrl) eqn:Hs.
  - destruct Hinv as [Ht Hc Hx Hl Hf].
    destruct (_ >? BALLAST_LEVEL_TOLERANCE);
      [destruct (_ >? 0)|];
      do 3 eexists; (split; [reflexivity|]);
      split; cbn; unfold in_u32 in *; cbn; try assumption; lia.
  - destruct (update_level_inv ndebug ctrl 1 now_ms Hinv Hnow
                (or_introl eq_refl))
      as (c1 & E & [Ht Hc Hx Hl Hf] & _ & _).
    rewrite E. cbn [P10.bind].
    destruct (current_level c1 >=? target_level c1);
      do 3 eexists; (split; [reflexivity|]);
      split; cbn; unfold BALLAST_SCALE_X1000; try assumption; lia.
  - destruct (update_level_inv ndebug ctrl (-1) now_ms Hinv Hnow
                (or_intror eq_refl))
      as (c1 & E & [Ht Hc Hx Hl Hf] & _ & _).
    rewrite E. cbn [P10.bind].
    destruct (current_level c1 <=? target_level c1);
      do 3 eexists; (split; [reflexivity|]);
      split; cbn; unfold BALLAST_SCALE_X1000; try assumption; lia.
  - destruct Hinv as [Ht Hc Hx Hl Hf].
    destruct (_ >? BALLAST_LEVEL_TOLERANCE * 2);
      do 3 eexists; (split; [reflexivity|]);
      split; cbn; assumption.
Qed.

Lemma do_calls_inv (ndebug : bool) (cs : list call) :
  forall ctrl ctrl',
    inv ctrl -> Forall call_ok cs ->
    do_calls ndebug ctrl cs = Some ctrl' -> inv ctrl'.
Proof.
  induction cs as [|c cs IH]; intros ctrl ctrl' Hinv Hok; cbn [do_calls].
  - intros H; injection H as <-. exact Hinv.
  - inversion Hok as [|c0 cs0 Hc Hcs]; subst.
    unfold P10.bind. destruct (do_call ndebug ctrl c) as [c1|] eqn:E;
      [|discriminate].
    apply IH; [|exact Hcs].
    destruct c as [level|now]; cbn [do_call call_ok] in E, Hc.
    + destruct (set_target_inv ndebug ctrl level Hinv Hc) as (c2 & E2 & H2).
      congruence.
    + destruct (update_inv ndebug ctrl now Hinv Hc) as (c2 & p & v & E2 & H2).
      rewrite E2 in E. cbn in E. congruence.
Qed.

Lemma reachable_inv (ndebug : bool) (ctrl : BallastController_t) :
  reachable ndebug ctrl -> inv ctrl.
Proof.
  intros (cs & Hok & Hcs). eapply do_calls_inv; eauto using inv_init.
Qed.

(** C10. On a controller initialised and driven through its interface,
    every update returns with the level estimate within [-100, 100].  When
    the update leaves Idle (for Filling or Draining) the timestamp
    [last_update_ms] is reset to 0 and the estimate is untouched;
    consequently the next level-integration step, for every direction and
    every value of [now_ms], only records the time and leaves the estimate
    as it was, and so does the whole next update. *)
Theorem leave_idle_resets_timestamp (ndebug : bool)
  (ctrl : BallastController_t) (now_ms : Z) :
  reachable ndebug ctrl -> in_u32 now_ms ->
  exists ctrl' pump valve,
    ballast_ctrl_update ndebug ctrl now_ms = Some (ctrl', pump, valve) /\
    -100 <= current_level ctrl' <= 100 /\
    (state ctrl = BALLAST_STATE_IDLE -> state ctrl' <> BALLAST_STATE_IDLE ->
     last_update_ms ctrl' = 0 /\
     current_level ctrl' = current_level ctrl /\
     current_level_x1000 ctrl' = current_level_x1000 ctrl /\
     (forall direction now2,
        direction = 1 \/ direction = -1 ->
        ballast_update_level ndebug ctrl' direction now2
        = Some (set_last_update_ms ctrl' now2)) /\
     (forall now2,
        exists pump2 valve2,
          ballast_ctrl_update ndebug ctrl' now2
          = Some (set_last_update_ms ctrl' now2, pump2, valve2))).
Proof.
  intros Hreach Hnow. pose proof (reachable_inv _ _ Hreach) as Hinv.
  destruct (update_inv ndebug ctrl now_ms Hinv Hnow)
    as (ctrl' & pump & valve & E & Hinv').
  exists ctrl', pump, valve. split; [exact E|].
  split; [apply Hinv'|].
  intros Hs Hleft.
  destruct Hinv as [Ht Hc Hx Hl Hf].
  assert (Hti : in_i8 (target_level ctrl)) by (unfold in_i8; lia).
  assert (Hci : in_i8 (current_level ctrl)) by (unfold in_i8; lia).
  destruct (error_exact _ _ Hti Hci) as [Eerr Eabs].
  revert E. unfold ballast_ctrl_update, ballast_ctrl_default_outputs.
  rewrite Hs, Eabs, Eerr. unfold BALLAST_LEVEL_TOLERANCE.
  assert (Hstep : forall c direction now2,
            last_update_ms c = 0 -> direction = 1 \/ direction = -1 ->
            ballast_update_level ndebug c direction now2
            = Some (set_last_update_ms c now2)).
  { intros c direction now2 H0 Hdir. unfold ballast_update_level.
    assert (Ed : ((direction =? -1) || (direction =? 1)) = true).
    { destruct Hdir; subst; reflexivity. }
    rewrite Ed, P10_ASSERT_true, H0. reflexivity. }
  destruct (Z.gtb_spec (Z.abs (target_level ctrl - current_level ctrl)) 5)
    as [Habs|Habs].
  - destruct (Z.gtb_spec (target_level ctrl - current_level ctrl) 0)
      as [Hpos|Hneg]; intros E; injection E as <- _ _;
      (split; [reflexivity|]); (split; [reflexivity|]);
      (split; [reflexivity|]);
      (split; [intros direction now2 Hdir; apply Hstep;
               [reflexivity|exact Hdir]|]);
      intros now2; unfold ballast_ctrl_update, ballast_ctrl_default_outputs;
      cbn [state set_state set_last_update_ms].
    + rewrite Hstep by (reflexivity || auto). cbn [P10.bind].
      cbn [current_level target_level set_last_update_ms set_state].
      destruct (Z.geb_spec (current_level ctrl) (target_level ctrl)); [lia|].
      do 2 eexists. reflexivity.
    + rewrite Hstep by (reflexivity || auto). cbn [P10.bind].
      cbn [current_level target_level set_last_update_ms set_state].
      destruct (Z.leb_spec (current_level ctrl) (target_level ctrl)); [lia|].
      do 2 eexists. reflexivity.
  - intros E; injection E as <- _ _. congruence.
Qed.

Lemma leave_idle_resets_timestamp_witness :
  exists ctrl' pump valve,
    ballast_ctrl_update false (mkBallast BALLAST_STATE_IDLE 50 0 0 0 10000) 7
    = Some (ctrl', pump, valve) /\
    -100 <= current_level ctrl' <= 100 /\
    (state (mkBallast BALLAST_STATE_IDLE 50 0 0 0 10000) = BALLAST_STATE_IDLE ->
     state ctrl' <> BALLAST_STATE_IDLE ->
     last_update_ms ctrl' = 0 /\
     current_level ctrl' = 0 /\
     current_level_x1000 ctrl' = 0 /\
     (forall direction now2,
        direction = 1 \/ direction = -1 ->
        ballast_update_level false ctrl' direction now2
        = Some (set_last_update_ms ctrl' now2)) /\
     (forall now2,
        exists pump2 valve2,
          ballast_ctrl_update false ctrl' now2
          = Some (set_last_update_ms ctrl' now2, pump2, valve2))).
Proof.
  apply (leave_idle_resets_timestamp false
           (mkBallast BALLAST_STATE_IDLE 50 0 0 0 10000) 7).
  - exists [Call_set_target 50]. split; [|reflexivity].
    repeat constructor; unfold in_i8; cbn; lia.
  - unfold in_u32. cbn. lia.
Defined.

(** The filling episode of the unit tests: the first update in Filling only
    sets the time base, the second advances the estimate by 20 per
    second. *)
Example filling_episode :
  do_calls false ballast_ctrl_init
    [Call_set_target 100; Call_update 0; Call_update 1000; Call_update 2000]
  = Some (mkBallast BALLAST_STATE_FILLING 100 20 20000 2000 10000).
Proof. reflexivity. Qed.

End BallastSpec.

(** ** The event log *)

Module LogSpec.
Import MachInt MachIntFacts Types Log.

(** *** Arrays *)

Lemma list_set_length {A : Type} (l : list A) (n : nat) (x : A) :
  length (list_set l n x) = length l.
Proof.
  revert n; induction l as [|h t IH]; intros [|n]; cbn; auto.
Qed.

Lemma nth_error_list_set_eq {A : Type} (l : list A) (n : nat) (x : A) :
  (n < length l)%nat -> nth_error (list_set l n x) n = Some x.
Proof.
  revert n; induction l as [|h t IH]; intros [|n]; cbn; intros H;
    try lia; auto. apply IH. lia.
Qed.

Lemma nth_error_list_set_neq {A : Type} (l : list A) (n m : nat) (x : A) :
  n <> m -> nth_error (list_set l n x) m = nth_error l m.
Proof.
  revert n m; induction l as [|h t IH]; intros [|n] [|m] H; cbn; auto;
    try congruence.
Qed.

(** *** Index arithmetic *)

Section WithCapacity.

Variable EVENT_LOG_SIZE : Z.
Variable ndebug : bool.
Hypothesis capacity : 2 <= EVENT_LOG_SIZE < 256.

Local Abbreviation N := EVENT_LOG_SIZE.

Lemma next_index_mod (idx : Z) :
  0 <= idx < N -> next_index N ndebug idx = Some ((idx + 1) mod N).
Proof using capacity.
  intros H. unfold next_index.
  assert (E : (idx <? N) = true) by (apply Z.ltb_lt; lia).
  rewrite E, P10_ASSERT_true. cbn [P10.bind].
  rewrite u8_id by (unfold in_u8; lia).
  destruct (Z.geb_spec (idx + 1) N).
  - assert (idx + 1 = N) as -> by lia. rewrite Z_mod_same_full. reflexivity.
  - rewrite Z.mod_small by lia. reflexivity.
Qed.

Lemma wrap_sub_mod (a b : Z) :
  0 <= a < N -> 0 <= b < N -> wrap_sub N ndebug a b = Some ((a - b) mod N).
Proof using capacity.
  intros Ha Hb. unfold wrap_sub.
  assert (Ea : (a <? N) = true) by (apply Z.ltb_lt; lia).
  assert (Eb : (b <? N) = true) by (apply Z.ltb_lt; lia).
  rewrite Ea, Eb, !P10_ASSERT_true. cbn [P10.bind].
  destruct (Z.geb_spec a b).
  - rewrite u8_id by (unfold in_u8; lia).
    rewrite Z.mod_small by lia. reflexivity.
  - rewrite u8_id by (unfold in_u8; lia). f_equal.
    apply Z.mod_unique with (q := -1); lia.
Qed.

Lemma mod_shift_neq (a d : Z) : 0 < d < N -> (a - d) mod N <> a mod N.
Proof using capacity.
  intros Hd Heq.
  assert (H : (a - (a - d)) mod N = 0).
  { rewrite Zminus_mod, Heq, Z.sub_diag. apply Z.mod_0_l. lia. }
  replace (a - (a - d)) with d in H by lia.
  rewrite Z.mod_small in H by lia. lia.
Qed.

(** *** The buffer as the list of everything appended *)

Lemma repr_init : repr N [] (log_init N).
Proof using capacity.
  split; cbn [log_init entries head count length Z.of_nat].
  - apply repeat_length.
  - rewrite Zmod_0_l. reflexivity.
  - lia.
  - intros j Hj. lia.
Qed.

Lemma repr_log_event (es : list EventLogEntry_t) (log : EventLog_t)
  (e : EventLogEntry_t) :
  repr N es log ->
  exists log',
    log_event N ndebug log (timestamp_ms e) (code e) (param1 e) (param2 e)
    = Some log' /\
    repr N (es ++ [e]) log'.
Proof using capacity.
  intros [Hlen Hhead Hcount Hent]. unfold log_event.
  set (len := Z.of_nat (length es)) in *.
  assert (Hlen0 : 0 <= len) by (unfold len; lia).
  assert (Hh : 0 <= head log < N).
  { rewrite Hhead. apply Z.mod_pos_bound. lia. }
  assert (Ee : mkEntry (timestamp_ms e) (code e) (param1 e) (param2 e) = e)
    by (destruct e; reflexivity).
  rewrite Ee. unfold array_set.
  assert (Eb : ((0 <=? head log)
                && (head log <? Z.of_nat (length (entries log)))) = true).
  { rewrite Hlen, Z2Nat.id by lia.
    apply andb_true_iff. rewrite Z.leb_le, Z.ltb_lt. lia. }
  rewrite Eb. cbn [P10.bind].
  rewrite next_index_mod by exact Hh. cbn [P10.bind].
  eexists. split; [reflexivity|].
  assert (Elen' : Z.of_nat (length (es ++ [e])) = len + 1).
  { rewrite length_app. cbn [length]. unfold len. lia. }
  split; cbn [entries head count]; rewrite ?Elen'.
  - rewrite list_set_length. exact Hlen.
  - rewrite Hhead. apply Zplus_mod_idemp_l.
  - rewrite Hcount.
    destruct (Z.ltb_spec (Z.min len N) N).
    + rewrite u8_id by (unfold in_u8; lia). lia.
    + lia.
  - intros j Hj. rewrite rev_unit.
    destruct j as [|j].
    + replace (len + 1 - 1 - Z.of_nat 0) with len by lia.
      rewrite <- Hhead. cbn [nth_error].
      apply nth_error_list_set_eq. lia.
    + cbn [nth_error]. rewrite <- Hent by lia.
      replace (len + 1 - 1 - Z.of_nat (S j)) with (len - 1 - Z.of_nat j)
        by lia.
      apply nth_error_list_set_neq.
      intros Heq. apply Z2Nat.inj in Heq;
        [| lia | apply Z.mod_pos_bound; lia].
      rewrite Hhead in Heq.
      apply (mod_shift_neq len (Z.of_nat (S j))); [lia|].
      rewrite Heq. f_equal. lia.
Qed.

Lemma log_events_app (log : EventLog_t) (es1 es2 : list EventLogEntry_t) :
  log_events N ndebug log (es1 ++ es2)
  = (log' <- log_events N ndebug log es1 ;; log_events N ndebug log' es2).
Proof.
  revert log; induction es1 as [|e es1 IH]; intros log; cbn; [reflexivity|].
  destruct (log_event _ _ _ _ _ _ _); cbn; [apply IH|reflexivity].
Qed.

Lemma repr_log_events (es : list EventLogEntry_t) :
  exists log,
    log_events N ndebug (log_init N) es = Some log /\ repr N es log.
Proof using capacity.
  induction es as [|e es IH] using rev_ind.
  - exists (log_init N). split; [reflexivity|apply repr_init].
  - destruct IH as (log & E & Hrepr).
    destruct (repr_log_event es log e Hrepr) as (log' & E' & Hrepr').
    exists log'. split; [|exact Hrepr'].
    rewrite log_events_app, E. cbn. rewrite E'. reflexivity.
Qed.

(** Reading the [n]-th newest entry of a buffer that represents [es]. *)
Lemma repr_get_newest (es : list EventLogEntry_t) (log : EventLog_t) (n : Z) :
  repr N es log -> 0 <= n ->
  log_get_newest N ndebug log n
  = Some (if n <? count log then nth_error (rev es) (Z.to_nat n) else None).
Proof using capacity.
  intros [Hlen Hhead Hcount Hent] Hn. unfold log_get_newest.
  set (len := Z.of_nat (length es)) in *.
  assert (Hh : 0 <= head log < N).
  { rewrite Hhead. apply Z.mod_pos_bound. lia. }
  destruct (Z.geb_spec n (count log)) as [Hge|Hlt].
  { destruct (Z.ltb_spec n (count log)); [lia|reflexivity]. }
  destruct (Z.ltb_spec n (count log)); [|lia].
  rewrite wrap_sub_mod by lia. cbn [P10.bind].
  rewrite wrap_sub_mod by (try apply Z.mod_pos_bound; lia). cbn [P10.bind].
  assert (Eidx : ((head log - 1) mod N - n) mod N = (len - 1 - n) mod N).
  { rewrite Zminus_mod_idemp_l, Hhead.
    replace (len mod N - 1 - n) with (len mod N - (1 + n)) by lia.
    rewrite Zminus_mod_idemp_l. f_equal. lia. }
  rewrite Eidx. unfold array_get.
  assert (Hidx : 0 <= (len - 1 - n) mod N < N) by (apply Z.mod_pos_bound; lia).
  assert (Eb : ((0 <=? (len - 1 - n) mod N)
                && ((len - 1 - n) mod N <? Z.of_nat (length (entries log))))
               = true).
  { rewrite Hlen, Z2Nat.id by lia.
    apply andb_true_iff. rewrite Z.leb_le, Z.ltb_lt. lia. }
  rewrite Eb.
  pose proof (Hent (Z.to_nat n)) as Hj. rewrite Z2Nat.id in Hj by lia.
  rewrite Hj by lia.
  destruct (nth_error (rev es) (Z.to_nat n)) as [e|] eqn:Enth; [reflexivity|].
  apply nth_error_None in Enth. rewrite length_rev in Enth. lia.
Qed.

End WithCapacity.

(** C8. For every capacity [EVENT_LOG_SIZE] that fits the [uint8_t] indices
    (and is at least 2, so that [wrap_sub(head, 1)] passes its assertion) and
    for every sequence [es] of entries appended after [log_init]:
    - all appends return; the count is min(number of appends, capacity), so
      it grows by one per append and saturates at the capacity;
    - [log_get_newest(n)] returns true with the (n+1)-th most recently
      appended entry when n < count, and false when n >= count;
    - hence every entry that can be retrieved is one of the [capacity] most
      recent ones: after capacity+k appends exactly [capacity] entries are
      retrievable, index 0 is the most recent and the k oldest are gone. *)
Theorem ring_buffer_newest_first (EVENT_LOG_SIZE : Z) (ndebug : bool)
  (es : list EventLogEntry_t) :
  2 <= EVENT_LOG_SIZE < 256 ->
  exists log,
    log_events EVENT_LOG_SIZE ndebug (log_init EVENT_LOG_SIZE) es = Some log /\
    log_count log = Z.min (Z.of_nat (length es)) EVENT_LOG_SIZE /\
    (forall e, exists log',
        log_event EVENT_LOG_SIZE ndebug log
          (timestamp_ms e) (code e) (param1 e) (param2 e) = Some log' /\
        log_count log' = Z.min (log_count log + 1) EVENT_LOG_SIZE) /\
    (forall n, in_u8 n -> n < log_count log ->
       exists e, nth_error (rev es) (Z.to_nat n) = Some e /\
                 log_get_newest EVENT_LOG_SIZE ndebug log n = Some (Some e)) /\
    (forall n, in_u8 n -> n >= log_count log ->
       log_get_newest EVENT_LOG_SIZE ndebug log n = Some None) /\
    (forall n e, in_u8 n ->
       log_get_newest EVENT_LOG_SIZE ndebug log n = Some (Some e) ->
       n < EVENT_LOG_SIZE /\ nth_error (rev es) (Z.to_nat n) = Some e).
Proof.
  intros HN.
  destruct (repr_log_events EVENT_LOG_SIZE ndebug HN es) as (log & E & Hrepr).
  exists log. split; [exact E|].
  pose proof (repr_count _ _ _ Hrepr) as Hcount. unfold log_count.
  split; [exact Hcount|].
  split.
  { intros e.
    destruct (repr_log_event EVENT_LOG_SIZE ndebug HN es log e Hrepr)
      as (log' & E' & Hrepr').
    exists log'. split; [exact E'|].
    rewrite (repr_count _ _ _ Hrepr'), Hcount, length_app. cbn [length]. lia. }
  split.
  { intros n [Hn0 Hn] Hlt.
    rewrite (repr_get_newest EVENT_LOG_SIZE ndebug HN es log n Hrepr Hn0).
    destruct (Z.ltb_spec n (count log)); [|lia].
    destruct (nth_error (rev es) (Z.to_nat n)) as [e|] eqn:Enth.
    - exists e. split; reflexivity.
    - apply nth_error_None in Enth. rewrite length_rev in Enth. lia. }
  split.
  { intros n [Hn0 Hn] Hge.
    rewrite (repr_get_newest EVENT_LOG_SIZE ndebug HN es log n Hrepr Hn0).
    destruct (Z.ltb_spec n (count log)); [lia|reflexivity]. }
  intros n e [Hn0 Hn].
  rewrite (repr_get_newest EVENT_LOG_SIZE ndebug HN es log n Hrepr Hn0).
  destruct (Z.ltb_spec n (count log)); [|discriminate].
  intros Hget; injection Hget as Hnth. split; [lia|exact Hnth].
Qed.

Lemma ring_buffer_newest_first_witness :
  exists log,
    log_events 32 false (log_init 32)
      [mkEntry 10 EVT_BOOT 1 2; mkEntry 20 EVT_MODE_CHANGE 3 4] = Some log /\
    log_count log = 2 /\
    log_get_newest 32 false log 0
    = Some (Some (mkEntry 20 EVT_MODE_CHANGE 3 4)) /\
    log_get_newest 32 false log 1 = Some (Some (mkEntry 10 EVT_BOOT 1 2)) /\
    log_get_newest 32 false log 2 = Some None.
Proof.
  assert (H32 : 2 <= 32 < 256) by lia.
  destruct (ring_buffer_newest_first 32 false
              [mkEntry 10 EVT_BOOT 1 2; mkEntry 20 EVT_MODE_CHANGE 3 4] H32)
    as (log & E & Hcount & _ & Hlt & Hge & _).
  exists log. split; [exact E|]. split; [exact Hcount|].
  assert (U0 : in_u8 0) by (unfold in_u8; lia).
  assert (U1 : in_u8 1) by (unfold in_u8; lia).
  assert (U2 : in_u8 2) by (unfold in_u8; lia).
  split; [|split].
  - destruct (Hlt 0 U0) as (e & Hn & Hg); [rewrite Hcount; cbn; lia|].
    cbn in Hn. injection Hn as <-. exact Hg.
  - destruct (Hlt 1 U1) as (e & Hn & Hg); [rewrite Hcount; cbn; lia|].
    cbn in Hn. injection Hn as <-. exact Hg.
  - apply (Hge 2 U2). rewrite Hcount. cbn. lia.
Defined.

(** The wrap-around of the unit tests: 34 appends into 32 slots. *)
Example wraparound_overwrites_oldest :
  exists log,
    log_events 32 false (log_init 32) (stamped 34) = Some log /\
    log_count log = 32 /\
    log_get_newest 32 false log 0
    = Some (Some (mkEntry 33 EVT_STATE_CHANGE 33 0)) /\
    log_get_newest 32 false log 31
    = Some (Some (mkEntry 2 EVT_STATE_CHANGE 2 0)) /\
    log_get_newest 32 false log 32 = Some None.
Proof. eexists. split; [vm_compute; reflexivity|]. repeat split. Qed.

End LogSpec.

(** ** The safety monitor *)

Module SafetySpec.
Import MachInt MachIntFacts Types Safety.

(** *** Counting effects *)

Lemma count_app (p : effect -> bool) (t1 t2 : list effect) :
  count p (t1 ++ t2) = count p t1 + count p t2.
Proof. induction t1 as [|e t1 IH]; cbn [count app]; lia. Qed.

Lemma count_emit (p : effect -> bool) (st : state) (e : effect) :
  count p (trace (emit st e)) = count p (trace st) + (if p e then 1 else 0).
Proof. cbn [trace emit]. rewrite count_app. cbn [count]. lia. Qed.

Lemma quiet_watchdog : quiet is_watchdog_update.
Proof. split; reflexivity. Qed.

Lemma quiet_trigger : quiet is_trigger.
Proof. split; reflexivity. Qed.

Lemma quiet_trigger_for (r : EventCode_t) : quiet (is_trigger_for r).
Proof. split; reflexivity. Qed.

(** *** Fault bits *)

Lemma fault_raise_eq (st : state) (b : Z) :
  0 <= b -> fault (raise_fault st b) b = true.
Proof.
  intros H. unfold fault, raise_fault. cbn. apply Z.setbit_eq. exact H.
Qed.

Lemma fault_raise_neq (st : state) (b b' : Z) :
  0 <= b -> b <> b' -> fault (raise_fault st b) b' = fault st b'.
Proof.
  intros H Hne. unfold fault, raise_fault. cbn. apply Z.setbit_neq; assumption.
Qed.

Lemma fault_clear_eq (st : state) (b : Z) : fault (clear_fault st b) b = false.
Proof. unfold fault, clear_fault. cbn. apply Z.clearbit_eq. Qed.

Lemma fault_clear_neq (st : state) (b b' : Z) :
  b <> b' -> fault (clear_fault st b) b' = fault st b'.
Proof.
  intros Hne. unfold fault, clear_fault. cbn. apply Z.clearbit_neq. exact Hne.
Qed.

Lemma fault_emit (st : state) (e : effect) (b : Z) :
  fault (emit st e) b = fault st b.
Proof. reflexivity. Qed.

(** A set core1_stall bit is a critical fault. *)
Lemma stall_is_critical (st : state) :
  fault st BIT_core1_stall = true -> critical st = true.
Proof.
  unfold fault, critical, BIT_core1_stall, critical_mask. intros H.
  destruct (Z.eqb_spec (Z.land (g_faults st) 287) 0) as [E|]; [|reflexivity].
  assert (Hb : Z.testbit (Z.land (g_faults st) 287) 8 = true).
  { rewrite Z.land_spec, H. reflexivity. }
  rewrite E in Hb. rewrite Z.bits_0 in Hb. discriminate.
Qed.

(** *** What each function of a tick does *)

Lemma adds_trans (p : effect -> bool) (st1 st2 st3 : state) (k1 k2 : Z) :
  adds p st1 st2 k1 -> adds p st2 st3 k2 -> adds p st1 st3 (k1 + k2).
Proof. unfold adds. intros [H1 G1] [H2 G2]. split; [lia|congruence]. Qed.

Lemma trigger_adds (p : effect -> bool) (r : EventCode_t) (st : state) :
  quiet p ->
  adds p st (trigger_emergency_blow r st)
       (if p (Enter_trigger_emergency_blow r) then 1 else 0).
Proof.
  intros [Hlog Hvalve Hpump Hservo Hgpio]. unfold adds, trigger_emergency_blow.
  split; [|reflexivity].
  rewrite !count_emit. cbn [trace set_emergency]. rewrite count_emit.
  rewrite Hlog, Hvalve, Hpump, !Hservo. lia.
Qed.

Lemma trigger_fault (r : EventCode_t) (st : state) (b : Z) :
  fault (trigger_emergency_blow r st) b = fault st b.
Proof. reflexivity. Qed.

Lemma check_rc_signal_adds (p : effect -> bool) (now : Z) (st : state) :
  quiet p -> adds p st (check_rc_signal now st) 0.
Proof.
  intros [Hlog _ _ _ _]. unfold adds, check_rc_signal.
  destruct (_ >? SIGNAL_TIMEOUT_MS); destruct (fault st BIT_signal_lost);
    cbn [negb]; (split; [|reflexivity]);
    rewrite ?count_emit, ?Hlog;
    cbn [trace raise_fault clear_fault set_g_faults]; lia.
Qed.

Lemma check_battery_adds (p : effect -> bool) (batt : Z) (st : state) :
  quiet p -> adds p st (check_battery batt st) 0.
Proof.
  intros [Hlog _ _ _ _]. unfold adds, check_battery.
  destruct (batt <? MIN_BATTERY_MV); destruct (fault st BIT_low_battery);
    cbn [negb]; (split; [|reflexivity]);
    rewrite ?count_emit, ?Hlog; cbn [trace raise_fault set_g_faults]; lia.
Qed.

Lemma check_sensors_adds (p : effect -> bool) (lk : bool) (st : state) :
  quiet p -> adds p st (check_sensors lk st) 0.
Proof.
  intros [Hlog _ _ _ _]. unfold check_sensors.
  set (st1 := if lk then _ else st).
  assert (H1 : adds p st st1 0).
  { unfold st1, adds. destruct lk; [destruct (fault st BIT_leak)|];
      cbn [negb]; (split; [|reflexivity]);
      rewrite ?count_emit, ?Hlog; cbn [trace raise_fault set_g_faults]; lia. }
  set (st2 := if g_current_depth_cm st1 >? MAX_DEPTH_CM then _ else st1).
  assert (H2 : adds p st1 st2 0).
  { unfold st2, adds. destruct (g_current_depth_cm st1 >? MAX_DEPTH_CM);
      [destruct (fault st1 BIT_depth_exceeded)|];
      cbn [negb]; (split; [|reflexivity]);
      rewrite ?count_emit, ?Hlog; cbn [trace raise_fault set_g_faults]; lia. }
  assert (H3 : adds p st2
            (if ABS (i16 (Z.quot (g_current_pitch_x10 st2) 10)) >? MAX_PITCH_DEG
             then if negb (fault st2 BIT_pitch_exceeded)
                  then emit (raise_fault st2 BIT_pitch_exceeded)
                         (Log_event EVT_PITCH_EXCEEDED
                            (u8 (i16 (Z.quot (g_current_pitch_x10 st2) 10))) 0)
                  else st2
             else st2) 0).
  { unfold adds. destruct (_ >? MAX_PITCH_DEG);
      [destruct (fault st2 BIT_pitch_exceeded)|];
      cbn [negb]; (split; [|reflexivity]);
      rewrite ?count_emit, ?Hlog; cbn [trace raise_fault set_g_faults]; lia. }
  pose proof (adds_trans _ _ _ _ _ _ (adds_trans _ _ _ _ _ _ H1 H2) H3) as H.
  exact H.
Qed.

Lemma keeps_refl (st : state) : keeps st st.
Proof. intros b _ _ _ H. exact H. Qed.

Lemma keeps_trans (st1 st2 st3 : state) :
  keeps st1 st2 -> keeps st2 st3 -> keeps st1 st3.
Proof. unfold keeps. intros H1 H2 b Hb H0 H8 H. auto. Qed.

Lemma keeps_raise (st : state) (b : Z) : 0 <= b -> keeps st (raise_fault st b).
Proof.
  intros Hb b' Hb' _ _ H. destruct (Z.eq_dec b b') as [<-|Hne].
  - apply fault_raise_eq. exact Hb.
  - rewrite fault_raise_neq by assumption. exact H.
Qed.

(** The steps of a tick other than the liveness check leave core1_stall
    alone, and only signal_lost is ever cleared by them. *)
Lemma check_rc_signal_faults (now : Z) (st : state) :
  forall b, b <> BIT_signal_lost ->
            fault (check_rc_signal now st) b = fault st b.
Proof.
  intros b Hb. unfold check_rc_signal, BIT_signal_lost in *.
  destruct (_ >? SIGNAL_TIMEOUT_MS); destruct (fault st 0) eqn:E;
    cbn [negb]; rewrite ?fault_emit, ?fault_raise_neq, ?fault_clear_neq;
    auto; lia.
Qed.

Lemma sticky_refl (st : state) : sticky st st.
Proof. split; [apply keeps_refl|split; reflexivity]. Qed.

Lemma sticky_trans (st1 st2 st3 : state) :
  sticky st1 st2 -> sticky st2 st3 -> sticky st1 st3.
Proof.
  intros (K1 & L1 & S1) (K2 & L2 & S2).
  split; [eapply keeps_trans; eauto|split; congruence].
Qed.

Lemma raise_keeps_stall (st : state) (b : Z) (e : effect) :
  0 <= b -> b <> BIT_signal_lost -> b <> BIT_core1_stall ->
  sticky st (emit (raise_fault st b) e).
Proof.
  intros Hb Hn0 Hn8. split; [|split].
  - intros b' Hb' H0 H8 H. rewrite fault_emit. apply keeps_raise; auto.
  - rewrite fault_emit. apply fault_raise_neq; assumption.
  - rewrite fault_emit. apply fault_raise_neq; assumption.
Qed.

Lemma check_battery_faults (batt : Z) (st : state) :
  sticky st (check_battery batt st).
Proof.
  unfold check_battery.
  destruct (batt <? MIN_BATTERY_MV); [|apply sticky_refl].
  destruct (fault st BIT_low_battery); cbn [negb]; [apply sticky_refl|].
  apply raise_keeps_stall;
    unfold BIT_low_battery, BIT_signal_lost, BIT_core1_stall; lia.
Qed.

Lemma check_sensors_faults (lk : bool) (st : state) :
  sticky st (check_sensors lk st).
Proof.
  unfold check_sensors.
  set (st1 := if lk then _ else st).
  assert (H1 : sticky st st1).
  { unfold st1. destruct lk; [|apply sticky_refl].
    destruct (fault st BIT_leak); cbn [negb]; [apply sticky_refl|].
    apply raise_keeps_stall;
      unfold BIT_leak, BIT_signal_lost, BIT_core1_stall; lia. }
  set (st2 := if g_current_depth_cm st1 >? MAX_DEPTH_CM then _ else st1).
  assert (H2 : sticky st1 st2).
  { unfold st2.
    destruct (g_current_depth_cm st1 >? MAX_DEPTH_CM); [|apply sticky_refl].
    destruct (fault st1 BIT_depth_exceeded); cbn [negb]; [apply sticky_refl|].
    apply raise_keeps_stall;
      unfold BIT_depth_exceeded, BIT_signal_lost, BIT_core1_stall; lia. }
  eapply sticky_trans; [eapply sticky_trans; eassumption|].
  destruct (_ >? MAX_PITCH_DEG); [|apply sticky_refl].
  destruct (fault st2 BIT_pitch_exceeded); cbn [negb]; [apply sticky_refl|].
  apply raise_keeps_stall;
    unfold BIT_pitch_exceeded, BIT_signal_lost, BIT_core1_stall; lia.
Qed.

(** Setters that do not touch the fault word. *)
Lemma fault_set_s_last_heartbeat (st : state) (v b : Z) :
  fault (set_s_last_heartbeat st v) b = fault st b.
Proof. reflexivity. Qed.

Lemma fault_set_s_stall_count (st : state) (v b : Z) :
  fault (set_s_stall_count st v) b = fault st b.
Proof. reflexivity. Qed.

Lemma adds_set_s_last_heartbeat (p : effect -> bool) (st st' : state)
  (v k : Z) :
  adds p st st' k -> adds p st (set_s_last_heartbeat st' v) k.
Proof. intros H. exact H. Qed.

Lemma adds_set_s_stall_count (p : effect -> bool) (st : state) (v : Z) :
  adds p st (set_s_stall_count st v) 0.
Proof.
  unfold adds. cbn [trace g_emergency set_s_stall_count].
  split; [lia|reflexivity].
Qed.

Lemma adds_raise (p : effect -> bool) (st : state) (b : Z) :
  adds p st (raise_fault st b) 0.
Proof. unfold adds. cbn. split; [lia|reflexivity]. Qed.

Lemma adds_clear (p : effect -> bool) (st : state) (b : Z) :
  adds p st (clear_fault st b) 0.
Proof. unfold adds. cbn. split; [lia|reflexivity]. Qed.

Lemma adds_emit (p : effect -> bool) (st : state) (e : effect) :
  adds p st (emit st e) (if p e then 1 else 0).
Proof. unfold adds. rewrite count_emit. split; reflexivity. Qed.

Lemma adds_0 (p : effect -> bool) (st : state) : adds p st st 0.
Proof. unfold adds. split; [lia|reflexivity]. Qed.

Lemma adds_eq (p : effect -> bool) (st st' : state) (k k' : Z) :
  adds p st st' k -> k = k' -> adds p st st' k'.
Proof. intros H <-. exact H. Qed.

(** The liveness check: it touches no bit but core1_stall, clears that bit
    when the heartbeat has moved, and enters [trigger_emergency_blow]
    exactly when it raises the bit. *)
Lemma check_core1_health_spec (p : effect -> bool) (hb : Z) (st : state) :
  quiet p ->
  adds p st (check_core1_health hb st)
       (if negb (fault st BIT_core1_stall)
           && fault (check_core1_health hb st) BIT_core1_stall
        then Z.b2z (p (Enter_trigger_emergency_blow EVT_CORE1_STALL))
        else 0)
  /\ (forall b, b <> BIT_core1_stall ->
                fault (check_core1_health hb st) b = fault st b)
  /\ (hb <> s_last_heartbeat st ->
      fault (check_core1_health hb st) BIT_core1_stall = false).
Proof.
  intros Hq. pose proof (quiet_log _ Hq) as Hlog.
  assert (H8 : 0 <= BIT_core1_stall) by (unfold BIT_core1_stall; lia).
  unfold check_core1_health.
  destruct (Z.eqb_spec hb (s_last_heartbeat st)) as [Ehb|Nhb].
  - destruct (_ >? CORE1_STALL_THRESHOLD).
    + rewrite fault_set_s_stall_count.
      destruct (fault st BIT_core1_stall) eqn:E8; cbn [negb andb].
      * rewrite !fault_set_s_last_heartbeat.
        split; [|split]; try contradiction.
        -- apply adds_set_s_last_heartbeat, adds_set_s_stall_count.
        -- intros b Hb. rewrite fault_set_s_last_heartbeat.
           apply fault_set_s_stall_count.
      * rewrite !fault_set_s_last_heartbeat, !trigger_fault, !fault_emit.
        rewrite fault_raise_eq by exact H8.
        split; [|split]; try contradiction.
        -- apply adds_set_s_last_heartbeat.
           eapply adds_eq.
           ++ eapply adds_trans; [apply adds_set_s_stall_count|].
              eapply adds_trans; [apply adds_raise|].
              eapply adds_trans; [apply adds_emit|].
              apply trigger_adds. exact Hq.
           ++ rewrite Hlog. destruct (p _); reflexivity.
        -- intros b Hb.
           rewrite fault_set_s_last_heartbeat, trigger_fault, fault_emit.
           rewrite fault_raise_neq by congruence.
           apply fault_set_s_stall_count.
    + rewrite !fault_set_s_last_heartbeat, !fault_set_s_stall_count.
      split; [|split]; try contradiction.
      * apply adds_set_s_last_heartbeat.
        eapply adds_eq; [apply adds_set_s_stall_count|].
        destruct (fault st BIT_core1_stall); reflexivity.
      * intros b Hb. rewrite fault_set_s_last_heartbeat.
        apply fault_set_s_stall_count.
  - rewrite !fault_set_s_last_heartbeat, fault_clear_eq, andb_false_r.
    split; [|split].
    + apply adds_set_s_last_heartbeat.
      eapply adds_eq.
      * eapply adds_trans; [apply adds_set_s_stall_count|apply adds_clear].
      * reflexivity.
    + intros b Hb.
      rewrite fault_set_s_last_heartbeat, fault_clear_neq by congruence.
      apply fault_set_s_stall_count.
    + reflexivity.
Qed.

Lemma update_heartbeat_led_adds (p : effect -> bool) (now : Z) (st : state) :
  quiet p ->
  adds p st (update_heartbeat_led now st) 0 /\
  g_faults (update_heartbeat_led now st) = g_faults st.
Proof.
  intros Hq. unfold adds, update_heartbeat_led.
  destruct (_ >=? _); repeat split; try lia.
  cbn [trace set_led]. rewrite count_emit, (quiet_gpio _ Hq). lia.
Qed.

Lemma check_rc_signal_fresh (now : Z) (st : state) :
  u32 (now - g_last_rc_valid_ms st) <= SIGNAL_TIMEOUT_MS ->
  fault (check_rc_signal now st) BIT_signal_lost = false.
Proof.
  intros H. unfold check_rc_signal.
  destruct (Z.gtb_spec (u32 (now - g_last_rc_valid_ms st)) SIGNAL_TIMEOUT_MS);
    [lia|].
  destruct (fault st BIT_signal_lost) eqn:E; [|exact E].
  rewrite fault_emit. apply fault_clear_eq.
Qed.

(** The checks before the liveness check do not touch its variables. *)
Lemma checks_keep_heartbeat (now batt : Z) (lk : bool) (st : state) :
  s_last_heartbeat
    (check_sensors lk (check_battery batt (check_rc_signal now st)))
  = s_last_heartbeat st.
Proof.
  unfold check_sensors, check_battery, check_rc_signal.
  repeat match goal with
         | |- context [if ?c then _ else _] => destruct c
         end; reflexivity.
Qed.

Lemma trace_set_g_emergency (st : state) (v : bool) :
  trace (set_g_emergency st v) = trace st.
Proof. reflexivity. Qed.

(** *** One tick *)

Lemma tick_spec (p : effect -> bool) (inp : tick_input) (st : state) :
  quiet p ->
  count p (trace (safety_monitor_run inp st))
  = count p (trace st)
    + Z.b2z (p Watchdog_update)
    + (if negb (fault st BIT_core1_stall)
          && fault (safety_monitor_run inp st) BIT_core1_stall
       then Z.b2z (p (Enter_trigger_emergency_blow EVT_CORE1_STALL)) else 0)
    + (if negb (g_emergency st) && critical (safety_monitor_run inp st)
       then Z.b2z (p (Enter_trigger_emergency_blow EVT_EMERGENCY_BLOW))
       else 0)
  /\ g_emergency (safety_monitor_run inp st)
     = g_emergency st || critical (safety_monitor_run inp st)
  /\ keeps st (safety_monitor_run inp st)
  /\ (u32 (now_ms inp - g_last_rc_valid_ms st) <= SIGNAL_TIMEOUT_MS ->
      fault (safety_monitor_run inp st) BIT_signal_lost = false)
  /\ (core1_heartbeat inp <> s_last_heartbeat st ->
      fault (safety_monitor_run inp st) BIT_core1_stall = false).
Proof.
  intros Hq. unfold safety_monitor_run.
  set (st0 := emit st Watchdog_update).
  set (st1 := check_rc_signal (now_ms inp) st0).
  set (st2 := check_battery (batt_mv inp) st1).
  set (st3 := check_sensors (leak inp) st2).
  set (st4 := check_core1_health (core1_heartbeat inp) st3).
  pose proof (adds_emit p st Watchdog_update) as A0. fold st0 in A0.
  pose proof (check_rc_signal_adds p (now_ms inp) st0 Hq) as A1. fold st1 in A1.
  pose proof (check_battery_adds p (batt_mv inp) st1 Hq) as A2. fold st2 in A2.
  pose proof (check_sensors_adds p (leak inp) st2 Hq) as A3. fold st3 in A3.
  destruct (check_core1_health_spec p (core1_heartbeat inp) st3 Hq)
    as (A4 & F4 & C4). fold st4 in A4, F4, C4.
  pose proof (check_rc_signal_faults (now_ms inp) st0) as F1. fold st1 in F1.
  destruct (check_battery_faults (batt_mv inp) st1) as (K2 & L2 & S2).
  fold st2 in K2, L2, S2.
  destruct (check_sensors_faults (leak inp) st2) as (K3 & L3 & S3).
  fold st3 in K3, L3, S3.
  assert (E8 : fault st3 BIT_core1_stall = fault st BIT_core1_stall).
  { rewrite S3, S2, F1 by (unfold BIT_core1_stall, BIT_signal_lost; lia).
    reflexivity. }
  rewrite E8 in A4.
  pose proof (adds_trans _ _ _ _ _ _
                (adds_trans _ _ _ _ _ _
                   (adds_trans _ _ _ _ _ _
                      (adds_trans _ _ _ _ _ _ A0 A1) A2) A3) A4) as A.
  assert (K : keeps st st4).
  { intros b Hb H0 H8 H.
    rewrite F4 by exact H8. apply K3; auto. apply K2; auto.
    rewrite F1 by exact H0. exact H. }
  assert (Hs0 : u32 (now_ms inp - g_last_rc_valid_ms st) <= SIGNAL_TIMEOUT_MS ->
                fault st4 BIT_signal_lost = false).
  { intros H.
    rewrite F4, L3, L2 by (unfold BIT_core1_stall, BIT_signal_lost; lia).
    apply check_rc_signal_fresh. exact H. }
  assert (Hs8 : core1_heartbeat inp <> s_last_heartbeat st ->
                fault st4 BIT_core1_stall = false).
  { intros H. apply C4. unfold st3, st2, st1.
    rewrite checks_keep_heartbeat. exact H. }
  clearbody st4. clear - Hq A K Hs0 Hs8.
  set (st5 := if negb (Z.land (g_faults st4) critical_mask =? 0)
                 && negb (g_emergency st4)
              then set_g_emergency
                     (trigger_emergency_blow EVT_EMERGENCY_BLOW st4) true
              else st4).
  destruct (update_heartbeat_led_adds p (now_ms inp) st5 Hq) as (A6 & G6).
  assert (A5 : count p (trace st5)
               = count p (trace st4)
                 + (if negb (g_emergency st4) && critical st4
                    then Z.b2z (p (Enter_trigger_emergency_blow
                                     EVT_EMERGENCY_BLOW))
                    else 0)
               /\ g_faults st5 = g_faults st4
               /\ g_emergency st5 = g_emergency st4 || critical st4).
  { unfold st5, critical.
    destruct (negb (Z.land (g_faults st4) critical_mask =? 0));
      destruct (g_emergency st4) eqn:Eg; cbn [negb andb orb];
      try (split; [lia|split; [reflexivity|congruence]]).
    destruct (trigger_adds p EVT_EMERGENCY_BLOW st4 Hq) as [Hc Hg].
    split; [|split; reflexivity].
    rewrite trace_set_g_emergency, Hc. destruct (p _); reflexivity. }
  destruct A5 as (A5 & G5 & E5). destruct A6 as [A6 E6]. destruct A as [A E4].
  fold st5.
  assert (Hf : forall b, fault (update_heartbeat_led (now_ms inp) st5) b
                         = fault st4 b).
  { intros b. unfold fault. rewrite G6, G5. reflexivity. }
  assert (Hc : critical (update_heartbeat_led (now_ms inp) st5)
               = critical st4).
  { unfold critical. rewrite G6, G5. reflexivity. }
  rewrite !Hf, Hc, A6, A5, A, E6, E5, E4.
  split; [|split; [|split; [|split]]].
  - destruct (p Watchdog_update); cbn [Z.b2z]; lia.
  - reflexivity.
  - intros b Hb H0 H8 H. rewrite Hf. apply K; auto.
  - exact Hs0.
  - exact Hs8.
Qed.

(** *** Runs *)

(** The other events of a run touch neither the fault word nor
    [g_emergency], and enter neither the watchdog nor
    [trigger_emergency_blow]. *)
Lemma step_other (ndebug : bool) (p : effect -> bool) (st st' : state)
  (ev : event) :
  quiet p ->
  (forall inp, ev <> Tick inp) ->
  step ndebug st ev = Some st' ->
  count p (trace st') = count p (trace st) /\
  g_faults st' = g_faults st /\
  g_emergency st' = g_emergency st.
Proof.
  intros Hq Hev.
  destruct ev as [inp|ms|d|pt|]; cbn [step].
  - exfalso. apply (Hev inp). reflexivity.
  - unfold safety_update_rc_time, P10.bind.
    destruct (P10.P10_ASSERT _ _); [|discriminate].
    intros H; injection H as <-. repeat split.
  - unfold safety_update_depth, P10.bind.
    destruct (P10.P10_ASSERT _ _); [|discriminate].
    destruct (P10.P10_ASSERT _ _); [|discriminate].
    intros H; injection H as <-. repeat split.
  - unfold safety_update_pitch, P10.bind.
    destruct (P10.P10_ASSERT _ _); [|discriminate].
    destruct (P10.P10_ASSERT _ _); [|discriminate].
    intros H; injection H as <-. repeat split.
  - intros H; injection H as <-. unfold emergency_blow_run.
    destruct (negb (emergency_active st)); [repeat split|].
    split; [|split; reflexivity].
    rewrite !count_emit.
    rewrite (quiet_valve _ Hq), (quiet_pump _ Hq), !(quiet_servo _ Hq). lia.
Qed.

Lemma step_tick_or_other (ev : event) :
  (exists inp, ev = Tick inp) \/ (forall inp, ev <> Tick inp).
Proof.
  destruct ev as [inp| | | |]; [left; exists inp; reflexivity|..];
    right; intros inp H; discriminate H.
Qed.

(** C1 as stated fails: after a tick that found the battery low the fault
    word is 2 (low_battery), and the following tick feeds the watchdog all
    the same (two feeds after two ticks). *)
Lemma watchdog_fed_while_faulted_counterexample :
  option_map (fun st => (g_faults st, count is_watchdog_update (trace st)))
    (run false (safety_monitor_init boot) [Tick low_battery_input])
  = Some (2, 1)
  /\
  option_map (fun st => (g_faults st, count is_watchdog_update (trace st)))
    (run false (safety_monitor_init boot)
       [Tick low_battery_input; Tick low_battery_input])
  = Some (2, 2).
Proof. split; vm_compute; reflexivity. Qed.

(** C1, amended. Every call of [safety_monitor_run] feeds the hardware
    watchdog exactly once, whatever the fault flags are before, during or
    after the tick; the monitor never starves the watchdog. *)
Theorem watchdog_fed_every_tick (inp : tick_input) (st : state) :
  count is_watchdog_update (trace (safety_monitor_run inp st))
  = count is_watchdog_update (trace st) + 1.
Proof.
  destruct (tick_spec is_watchdog_update inp st quiet_watchdog) as (H & _).
  rewrite H. cbn [is_watchdog_update Z.b2z].
  destruct (negb _ && _); destruct (negb _ && _); lia.
Qed.

Lemma run_inv_init : run_inv (safety_monitor_init boot).
Proof. split; [reflexivity|]. intros _. split; reflexivity. Qed.

Lemma tick_aggregate (inp : tick_input) (st : state) :
  count (is_trigger_for EVT_EMERGENCY_BLOW) (trace (safety_monitor_run inp st))
  = count (is_trigger_for EVT_EMERGENCY_BLOW) (trace st)
    + Z.b2z (negb (g_emergency st) && critical (safety_monitor_run inp st)).
Proof.
  destruct (tick_spec _ inp st (quiet_trigger_for EVT_EMERGENCY_BLOW))
    as (H & _).
  rewrite H. cbn [is_trigger_for code_is Z.b2z].
  change (code_is EVT_CORE1_STALL EVT_EMERGENCY_BLOW) with false.
  change (code_is EVT_EMERGENCY_BLOW EVT_EMERGENCY_BLOW) with true.
  destruct (negb (fault st _) && _); destruct (negb (g_emergency st) && _);
    cbn [Z.b2z]; lia.
Qed.

Lemma tick_stall (inp : tick_input) (st : state) :
  count (is_trigger_for EVT_CORE1_STALL) (trace (safety_monitor_run inp st))
  = count (is_trigger_for EVT_CORE1_STALL) (trace st)
    + Z.b2z (negb (fault st BIT_core1_stall)
             && fault (safety_monitor_run inp st) BIT_core1_stall).
Proof.
  destruct (tick_spec _ inp st (quiet_trigger_for EVT_CORE1_STALL)) as (H & _).
  rewrite H. cbn [is_trigger_for Z.b2z].
  change (code_is EVT_CORE1_STALL EVT_CORE1_STALL) with true.
  change (code_is EVT_EMERGENCY_BLOW EVT_CORE1_STALL) with false.
  destruct (negb (fault st _) && _); destruct (negb (g_emergency st) && _);
    cbn [Z.b2z]; lia.
Qed.

Lemma tick_all_triggers (inp : tick_input) (st : state) :
  count is_trigger (trace (safety_monitor_run inp st))
  = count is_trigger (trace st)
    + Z.b2z (negb (fault st BIT_core1_stall)
             && fault (safety_monitor_run inp st) BIT_core1_stall)
    + Z.b2z (negb (g_emergency st) && critical (safety_monitor_run inp st)).
Proof.
  destruct (tick_spec _ inp st quiet_trigger) as (H & _).
  rewrite H. cbn [is_trigger Z.b2z].
  destruct (negb (fault st _) && _); destruct (negb (g_emergency st) && _);
    cbn [Z.b2z]; lia.
Qed.

Lemma tick_emergency (inp : tick_input) (st : state) :
  g_emergency (safety_monitor_run inp st)
  = g_emergency st || critical (safety_monitor_run inp st).
Proof.
  destruct (tick_spec _ inp st quiet_trigger) as (_ & H & _). exact H.
Qed.

Lemma run_inv_tick (inp : tick_input) (st : state) :
  run_inv st -> run_inv (safety_monitor_run inp st).
Proof.
  intros [Hagg Hcalm].
  pose proof (tick_aggregate inp st) as Ha.
  pose proof (tick_all_triggers inp st) as Ht.
  pose proof (tick_emergency inp st) as He.
  split.
  - rewrite Ha, He, Hagg.
    destruct (g_emergency st); destruct (critical _); reflexivity.
  - intros Hg. rewrite Hg in He.
    destruct (g_emergency st) eqn:Eg; [discriminate He|].
    cbn [orb] in He. symmetry in He. split; [exact He|].
    destruct (Hcalm eq_refl) as [_ Hz].
    rewrite Ht, Hz, He.
    destruct (fault (safety_monitor_run inp st) BIT_core1_stall) eqn:E8.
    + apply stall_is_critical in E8. congruence.
    + rewrite andb_false_r. reflexivity.
Qed.

Lemma run_inv_step (ndebug : bool) (st st' : state) (ev : event) :
  run_inv st -> step ndebug st ev = Some st' -> run_inv st'.
Proof.
  intros Hinv Hstep.
  destruct (step_tick_or_other ev) as [[inp ->]|Hother].
  - cbn [step] in Hstep. injection Hstep as <-. apply run_inv_tick, Hinv.
  - destruct Hinv as [Hagg Hcalm].
    destruct (step_other ndebug _ st st' ev
                (quiet_trigger_for EVT_EMERGENCY_BLOW) Hother Hstep)
      as (Ha & Hf & Hg).
    destruct (step_other ndebug _ st st' ev quiet_trigger Hother Hstep)
      as (Ht & _ & _).
    split.
    + rewrite Ha, Hg. exact Hagg.
    + rewrite Hg. intros Hfalse. destruct (Hcalm Hfalse) as [Hc Hz].
      split; [|lia]. unfold critical in *. rewrite Hf. exact Hc.
Qed.

Lemma run_inv_run (ndebug : bool) (evs : list event) :
  forall st st', run_inv st -> run ndebug st evs = Some st' -> run_inv st'.
Proof.
  induction evs as [|ev evs IH]; intros st st' Hinv; cbn [run].
  - intros H; injection H as <-. exact Hinv.
  - unfold P10.bind. destruct (step ndebug st ev) as [st1|] eqn:E;
      [|discriminate].
    apply IH. eapply run_inv_step; eauto.
Qed.

(** C2 as stated fails.  With the heartbeat frozen for eleven ticks the
    eleventh tick enters [trigger_emergency_blow] twice, once from the
    liveness check and once from the aggregate check; and when the
    heartbeat then moves for one tick and freezes again, a later tick of the
    same run enters it a third time. *)
Lemma trigger_invoked_again_counterexample :
  option_map (fun st => count is_trigger (trace st))
    (run false (safety_monitor_init boot)
       (repeat (Tick (nominal_input 0)) 10))
  = Some 0
  /\
  option_map (fun st => count is_trigger (trace st))
    (run false (safety_monitor_init boot)
       (repeat (Tick (nominal_input 0)) 11))
  = Some 2
  /\
  option_map (fun st => count is_trigger (trace st))
    (run false (safety_monitor_init boot)
       (repeat (Tick (nominal_input 0)) 11
        ++ [Tick (nominal_input 1)]
        ++ repeat (Tick (nominal_input 1)) 11))
  = Some 3.
Proof. repeat split; vm_compute; reflexivity. Qed.

(** C2, amended. In every run started by [safety_monitor_init]:
    - the aggregate check of [safety_monitor_run] has entered
      [trigger_emergency_blow] (reason EVT_EMERGENCY_BLOW) once if
      [g_emergency] is set and never otherwise, so at most once per run;
    - as long as [g_emergency] is clear, no critical bit is set and
      [trigger_emergency_blow] has not been entered at all;
    - a further tick sets [g_emergency] exactly when it was set already or
      the tick ends with a critical bit set, and its aggregate check enters
      [trigger_emergency_blow] exactly when [g_emergency] was clear and the
      tick ends with a critical bit set: the first such tick triggers, later
      ticks do not trigger through the aggregate check again;
    - besides that, the liveness check enters [trigger_emergency_blow]
      (reason EVT_CORE1_STALL) on exactly the ticks that raise core1_stall,
      and these are all the entries there are. *)
Theorem aggregate_trigger_once (ndebug : bool) (evs : list event)
  (st : state) :
  run ndebug (safety_monitor_init boot) evs = Some st ->
  count (is_trigger_for EVT_EMERGENCY_BLOW) (trace st)
  = Z.b2z (g_emergency st)
  /\ (g_emergency st = false ->
      critical st = false /\ count is_trigger (trace st) = 0)
  /\ (forall inp,
        g_emergency (safety_monitor_run inp st)
        = g_emergency st || critical (safety_monitor_run inp st)
        /\ count (is_trigger_for EVT_EMERGENCY_BLOW)
             (trace (safety_monitor_run inp st))
           = count (is_trigger_for EVT_EMERGENCY_BLOW) (trace st)
             + Z.b2z (negb (g_emergency st)
                      && critical (safety_monitor_run inp st))
        /\ count (is_trigger_for EVT_CORE1_STALL)
             (trace (safety_monitor_run inp st))
           = count (is_trigger_for EVT_CORE1_STALL) (trace st)
             + Z.b2z (negb (fault st BIT_core1_stall)
                      && fault (safety_monitor_run inp st) BIT_core1_stall)
        /\ count is_trigger (trace (safety_monitor_run inp st))
           = count is_trigger (trace st)
             + Z.b2z (negb (fault st BIT_core1_stall)
                      && fault (safety_monitor_run inp st) BIT_core1_stall)
             + Z.b2z (negb (g_emergency st)
                      && critical (safety_monitor_run inp st))).
Proof.
  intros Hrun.
  destruct (run_inv_run ndebug evs _ _ run_inv_init Hrun) as [Hagg Hcalm].
  split; [exact Hagg|]. split; [exact Hcalm|].
  intros inp. split; [apply tick_emergency|].
  split; [apply tick_aggregate|].
  split; [apply tick_stall|apply tick_all_triggers].
Qed.

Lemma aggregate_trigger_once_witness :
  run false (safety_monitor_init boot)
    [Tick low_battery_input; Tick low_battery_input]
  = Some after_two_low_battery_ticks
  /\ count (is_trigger_for EVT_EMERGENCY_BLOW)
       (trace after_two_low_battery_ticks)
     = Z.b2z (g_emergency after_two_low_battery_ticks).
Proof.
  assert (Hrun : run false (safety_monitor_init boot)
                   [Tick low_battery_input; Tick low_battery_input]
                 = Some after_two_low_battery_ticks)
    by (vm_compute; reflexivity).
  split; [exact Hrun|].
  exact (proj1 (aggregate_trigger_once false _ _ Hrun)).
Defined.

(** C4 as stated fails for core_stall: eleven ticks with a frozen heartbeat
    raise it, and the next tick, on which the heartbeat has moved, clears
    it again. *)
Lemma core_stall_clears_counterexample :
  option_map (fun st => fault st BIT_core1_stall)
    (run false (safety_monitor_init boot)
       (repeat (Tick (nominal_input 0)) 11))
  = Some true
  /\
  option_map (fun st => fault st BIT_core1_stall)
    (run false (safety_monitor_init boot)
       (repeat (Tick (nominal_input 0)) 11 ++ [Tick (nominal_input 1)]))
  = Some false.
Proof. split; vm_compute; reflexivity. Qed.

Lemma keeps_step (ndebug : bool) (st st' : state) (ev : event) :
  step ndebug st ev = Some st' -> keeps st st'.
Proof.
  intros Hstep.
  destruct (step_tick_or_other ev) as [[inp ->]|Hother].
  - cbn [step] in Hstep. injection Hstep as <-.
    destruct (tick_spec _ inp st quiet_trigger) as (_ & _ & K & _). exact K.
  - destruct (step_other ndebug _ st st' ev quiet_trigger Hother Hstep)
      as (_ & Hf & _).
    intros b _ _ _ H. unfold fault in *. rewrite Hf. exact H.
Qed.

Lemma keeps_run (ndebug : bool) (evs : list event) :
  forall st st', run ndebug st evs = Some st' -> keeps st st'.
Proof.
  induction evs as [|ev evs IH]; intros st st'; cbn [run].
  - intros H; injection H as <-. apply keeps_refl.
  - unfold P10.bind. destruct (step ndebug st ev) as [st1|] eqn:E;
      [|discriminate].
    intros Hrun. eapply keeps_trans; [eapply keeps_step; eauto|].
    apply IH. exact Hrun.
Qed.

(** C4, amended. Within a run, each of the flags low_battery, leak,
    depth_exceeded and pitch_exceeded, once set, is still set after every
    further sequence of ticks and updates, whatever the sensor values.  The
    two other flags clear automatically: signal_lost on a tick on which the
    last valid command is no older than the timeout, and core1_stall on a
    tick on which the heartbeat has moved. *)
Theorem sticky_faults_persist (ndebug : bool) (evs : list event)
  (st st' : state) :
  run ndebug st evs = Some st' ->
  (forall b,
     In b [BIT_low_battery; BIT_leak; BIT_depth_exceeded; BIT_pitch_exceeded]
     -> fault st b = true -> fault st' b = true)
  /\ (forall inp,
        u32 (now_ms inp - g_last_rc_valid_ms st') <= SIGNAL_TIMEOUT_MS ->
        fault (safety_monitor_run inp st') BIT_signal_lost = false)
  /\ (forall inp,
        core1_heartbeat inp <> s_last_heartbeat st' ->
        fault (safety_monitor_run inp st') BIT_core1_stall = false).
Proof.
  intros Hrun. split; [|split].
  - intros b Hb Hset. apply (keeps_run ndebug evs st st' Hrun); auto;
      cbn [In] in Hb;
      unfold BIT_low_battery, BIT_leak, BIT_depth_exceeded,
        BIT_pitch_exceeded, BIT_signal_lost, BIT_core1_stall in *; lia.
  - intros inp.
    destruct (tick_spec _ inp st' quiet_trigger) as (_ & _ & _ & H & _).
    exact H.
  - intros inp.
    destruct (tick_spec _ inp st' quiet_trigger) as (_ & _ & _ & _ & H).
    exact H.
Qed.

Lemma sticky_faults_persist_witness :
  run false (safety_monitor_run low_battery_input (safety_monitor_init boot))
    [Tick low_battery_input]
  = Some after_two_low_battery_ticks
  /\ fault (safety_monitor_run low_battery_input (safety_monitor_init boot))
       BIT_low_battery = true
  /\ fault after_two_low_battery_ticks BIT_low_battery = true.
Proof.
  assert (Hrun : run false
                   (safety_monitor_run low_battery_input
                      (safety_monitor_init boot))
                   [Tick low_battery_input]
                 = Some after_two_low_battery_ticks)
    by (vm_compute; reflexivity).
  assert (Hset : fault (safety_monitor_run low_battery_input
                          (safety_monitor_init boot))
                   BIT_low_battery = true)
    by (vm_compute; reflexivity).
  split; [exact Hrun|]. split; [exact Hset|].
  apply (proj1 (sticky_faults_persist false _ _ _ Hrun)).
  - left. reflexivity.
  - exact Hset.
Defined.

(** The scenario of the specification: a leak reported for one tick stays
    set after the reading has gone back to false. *)
Example leak_stays_set :
  option_map (fun st => fault st BIT_leak)
    (run false (safety_monitor_init boot)
       [Tick (mkInput 0 7400 true 1); Tick (nominal_input 2);
        Tick (nominal_input 3)])
  = Some true.
Proof. vm_compute. reflexivity. Qed.

End SafetySpec.
